(** * Adaptic backend: the conversation graph and its streaming endpoint

    A shallow embedding of [src/ai/graph.ts] (the three-node conversation
    graph and its prompt-template helper) and of the [/api/agent] handler
    of the Express server (history conversion, the loop that turns graph
    updates into server-sent events, and its catch block).

    Conventions of the embedding.
    - A JavaScript string is a [string]; the operations used by the code
      ([toLowerCase], [trim], [\w], [.]) are modelled on ASCII text, where
      they act character by character.  Characters outside ASCII appear
      as their UTF-8 bytes and are left alone by the case mapping and the
      white-space test.
    - [null]/[undefined] values of the state channels are [None].
    - A plain object used as a mapping is a finite map of its own
      properties; a property read that misses them finds the members
      inherited from [Object.prototype].
    - The language model, the JSON parser and the clock are parameters of
      the functions that use them.
    - An exception is a [Failure] carrying the [message] of the error.
    - The graph library is modelled by what the code relies on: a node
      returns a partial state that is merged into the state by the
      channel reducers, the edges are evaluated on the merged state, and
      the stream in [updates] mode yields, per executed node, the
      node's name with the partial state it returned. *)

From Stdlib Require Import Ascii.
From stdpp Require Import base option list strings gmap.

Local Open Scope stdpp_scope.

(** ** String primitives of the host language *)

Module JS.

Definition code (c : ascii) : nat := nat_of_ascii c.

Definition between (lo hi : nat) (c : ascii) : bool :=
  (lo <=? code c)%nat && (code c <=? hi)%nat.

Definition is_upper (c : ascii) : bool := between 65 90 c.
Definition is_lower (c : ascii) : bool := between 97 122 c.
Definition is_digit (c : ascii) : bool := between 48 57 c.

Definition lower_char (c : ascii) : ascii :=
  if is_upper c then ascii_of_nat (code c + 32) else c.

(** [String.prototype.toLowerCase] *)
Fixpoint toLowerCase (s : string) : string :=
  match s with
  | EmptyString => EmptyString
  | String c t => String (lower_char c) (toLowerCase t)
  end.

(** [String.prototype.startsWith] *)
Fixpoint startsWith (s p : string) : bool :=
  match p, s with
  | EmptyString, _ => true
  | String _ _, EmptyString => false
  | String a p', String b s' => Ascii.eqb a b && startsWith s' p'
  end.

(** [String.prototype.includes]: some suffix of [s] starts with [p]. *)
Fixpoint includes (s p : string) : bool :=
  startsWith s p ||
  match s with
  | EmptyString => false
  | String _ t => includes t p
  end.

Fixpoint drop (n : nat) (s : string) : string :=
  match n, s with
  | S n', String _ t => drop n' t
  | _, _ => s
  end.

(** [s.replace(p, r)] with a string pattern: only the first occurrence
    of [p] is replaced. *)
Fixpoint replace (s p r : string) : string :=
  if startsWith s p then r +:+ drop (String.length p) s
  else match s with
       | EmptyString => EmptyString
       | String c t => String c (replace t p r)
       end.

(** [s.split(sep)] for a one-character separator: always at least one
    field, and one more field per occurrence of the separator. *)
Fixpoint split (s : string) (sep : ascii) : list string :=
  match s with
  | EmptyString => [EmptyString]
  | String c t =>
      if Ascii.eqb c sep then EmptyString :: split t sep
      else match split t sep with
           | f :: fs => String c f :: fs
           | [] => [String c EmptyString]
           end
  end.

(** White space and line terminators stripped by [trim]. *)
Definition is_space (c : ascii) : bool :=
  between 9 13 c || (code c =? 32)%nat.

Fixpoint trimStart (s : string) : string :=
  match s with
  | EmptyString => EmptyString
  | String c t => if is_space c then trimStart t else s
  end.

Fixpoint trimEnd (s : string) : string :=
  match s with
  | EmptyString => EmptyString
  | String c t =>
      match trimEnd t with
      | EmptyString => if is_space c then EmptyString else String c EmptyString
      | t' => String c t'
      end
  end.

(** [String.prototype.trim] *)
Definition trim (s : string) : string := trimEnd (trimStart s).

(** Truthiness of a string: only the empty string is falsy. *)
Definition truthy (s : string) : bool :=
  match s with EmptyString => false | _ => true end.

(** [a || b] on an optional string: [undefined] and [""] fall through. *)
Definition or_else (a : option string) (b : string) : string :=
  match a with
  | Some v => if truthy v then v else b
  | None => b
  end.

(** The class [\w] of regular expressions. *)
Definition is_word (c : ascii) : bool :=
  is_upper c || is_lower c || is_digit c || (code c =? 95)%nat.

(** The class [.] of regular expressions: anything but a line
    terminator. *)
Definition is_dot (c : ascii) : bool :=
  negb ((code c =? 10)%nat || (code c =? 13)%nat).

End JS.

(** ** The prompt-template helper *)

(** One attempt of [/\{(\w+)\}/] at the head of [s]: an opening brace, the
    longest run of word characters (at least one), a closing brace.  The
    result is the captured name and what follows the match.  The run is
    taken greedily; giving characters back cannot help, a word character
    is never the closing brace. *)
Fixpoint span_word (s : string) : string * string :=
  match s with
  | EmptyString => (EmptyString, EmptyString)
  | String c t =>
      if JS.is_word c then let '(w, r) := span_word t in (String c w, r)
      else (EmptyString, s)
  end.

Definition match_placeholder (s : string) : option (string * string) :=
  match s with
  | String c t =>
      if Ascii.eqb c "{" then
        match span_word t with
        | (String k ks, String c' r) =>
            if Ascii.eqb c' "}" then Some (String k ks, r) else None
        | _ => None
        end
      else None
  | EmptyString => None
  end.

(** The members a plain object inherits from [Object.prototype], each
    with the text it converts to when [replace] inserts it, as Node.js
    prints them: a built-in function by its name, and for [__proto__]
    the prototype object itself. *)
Definition native_function (fname : string) : string :=
  "function " +:+ fname +:+ "() { [native code] }".

Definition Object_prototype : list (string * string) :=
  [ ("constructor", native_function "Object");
    ("__defineGetter__", native_function "__defineGetter__");
    ("__defineSetter__", native_function "__defineSetter__");
    ("hasOwnProperty", native_function "hasOwnProperty");
    ("__lookupGetter__", native_function "__lookupGetter__");
    ("__lookupSetter__", native_function "__lookupSetter__");
    ("isPrototypeOf", native_function "isPrototypeOf");
    ("propertyIsEnumerable", native_function "propertyIsEnumerable");
    ("toString", native_function "toString");
    ("valueOf", native_function "valueOf");
    ("__proto__", "[object Object]");
    ("toLocaleString", native_function "toLocaleString") ].

(** The text recorded under [key] in a list of named members. *)
Fixpoint assoc (key : string) (members : list (string * string)) : option string :=
  match members with
  | [] => None
  | (k, v) :: rest => if String.eqb k key then Some v else assoc key rest
  end.

(** [(match, key) => data[key] || match].  The read [data[key]] finds an
    own property first (an empty text is falsy, and the match is kept);
    when there is none it finds the inherited member of that name, a
    function or an object, which is truthy and is inserted as its text;
    when there is none either it is [undefined], and the match is
    kept. *)
Definition replacer (data : gmap string string) (key : string) : string :=
  match data !! key with
  | Some v => JS.or_else (Some v) ("{" +:+ key +:+ "}")
  | None => default ("{" +:+ key +:+ "}") (assoc key Object_prototype)
  end.

(** Is [key] the name of an inherited member? *)
Definition inherited (key : string) : bool :=
  match assoc key Object_prototype with
  | Some _ => true
  | None => false
  end.

(** [template.replace(/\{(\w+)\}/g, f)]: scan from the left; where the
    pattern matches, emit the replacement and resume after the match,
    otherwise copy one character.  [fuel] bounds the number of scan
    steps; every step consumes at least one character. *)
Fixpoint replace_all (fuel : nat) (data : gmap string string) (s : string) : string :=
  match fuel with
  | O => s
  | S fuel' =>
      match s with
      | EmptyString => EmptyString
      | String c t =>
          match match_placeholder s with
          | Some (key, rest) => replacer data key +:+ replace_all fuel' data rest
          | None => String c (replace_all fuel' data t)
          end
      end
  end.

Definition formatTemplate (template : string) (data : gmap string string) : string :=
  replace_all (String.length template) data template.

(** Does the pattern match anywhere in [s]? *)
Fixpoint has_placeholder (s : string) : bool :=
  match match_placeholder s with
  | Some _ => true
  | None => match s with
            | EmptyString => false
            | String _ t => has_placeholder t
            end
  end.

(** A placeholder name: one or more word characters. *)
Fixpoint all_word (s : string) : bool :=
  match s with
  | EmptyString => true
  | String c t => JS.is_word c && all_word t
  end.

Definition is_name (s : string) : bool := JS.truthy s && all_word s.

(** Does the character [c] occur in [s]? *)
Fixpoint occurs (c : ascii) (s : string) : bool :=
  match s with
  | EmptyString => false
  | String c' t => Ascii.eqb c' c || occurs c t
  end.

(** [fields.join(sep)] *)
Fixpoint join (fields : list string) (sep : string) : string :=
  match fields with
  | [] => EmptyString
  | [f] => f
  | f :: fs => f +:+ sep +:+ join fs sep
  end.


(** ** Prompt templates *)

Definition dq : string := String (ascii_of_nat 34) EmptyString.
Definition nl : string := String (ascii_of_nat 10) EmptyString.

(** Lines of a template literal, joined by line feeds. *)
Fixpoint unlines (ls : list string) : string :=
  match ls with
  | [] => EmptyString
  | [l] => l
  | l :: ls' => l +:+ nl +:+ unlines ls'
  end.

Definition INTRODUCTION_TEMPLATE : string :=
  unlines [
    "You are Adaptic AI, an intelligent assistant for the Adaptic Protocol - the revolutionary AI-powered redeemable NFT platform on the Massa blockchain.";
    EmptyString;
    "Your role is to introduce users to Adaptic and its capabilities. When users ask about the platform, explain:";
    EmptyString;
    "**What is Adaptic?**";
    "Adaptic transforms digital ownership into dynamic, self-managing assets through AI-powered autonomous contracts. It's not just about owning NFTs - it's about owning intelligent digital assets that can:";
    "- Self-manage through AI automation";
    "- Auto-update based on real-world events";
    "- Generate liquidity via DeFi integrations";
    "- Bridge digital assets with real-world utility";
    EmptyString;
    "**What's Possible with Adaptic?**";
    "- Gaming assets that evolve based on player performance";
    "- Event tickets that unlock exclusive content";
    "- Financial instruments that adapt to market conditions";
    "- Digital collectibles with real-world redemption value";
    EmptyString;
    "**Current Implementation - Wave 2 of Wave Hacks:**";
    "Right now, we have a special NFT ticketing contract implementation that you can deploy and test! This is our showcase for Wave 2 of the 5-week Wave Hacks competition.";
    EmptyString;
    "**Benefits for Users:**";
    "- Deploy smart contracts through simple conversation";
    "- No coding knowledge required";
    "- Powered by Massa blockchain's speed and efficiency";
    "- AI-driven contract customization";
    "- Real-world utility integration";
    EmptyString;
    "Would you like to try deploying an NFT ticketing contract for your event? Just tell me about your event and I'll help you create it!"
  ].

Definition EVENT_EXTRACTION_TEMPLATE : string :=
  unlines [
    "You are Adaptic AI, helping users create NFT ticketing contracts.";
    EmptyString;
    "Your task is to extract TWO pieces of information from the user's input:";
    "1. **Event Name** (string) - What is the event called?";
    "2. **Event Date** (date) - When is the event happening?";
    EmptyString;
    "Current status:";
    "- Event Name: {event_name}";
    "- Event Date: {event_date}";
    EmptyString;
    "IMPORTANT GUIDELINES:";
    "- If the user mentions a date like " +:+ dq +:+ "25th of May" +:+ dq +:+ " or " +:+ dq +:+ "tomorrow" +:+ dq +:+ " or " +:+ dq +:+ "next Friday" +:+ dq +:+ ", ask them to confirm the YEAR and provide the date in DD/MM/YYYY format";
    "- If they say " +:+ dq +:+ "May 25th" +:+ dq +:+ " ask " +:+ dq +:+ "Can you confirm the year? Please provide the date as DD/MM/YYYY" +:+ dq;
    "- If they give a relative date like " +:+ dq +:+ "tomorrow" +:+ dq +:+ " or " +:+ dq +:+ "next week" +:+ dq +:+ ", ask for the specific date in DD/MM/YYYY format";
    "- Be helpful and conversational, but always get the exact date format needed";
    "- Only ask for what's missing - don't repeat information you already have";
    EmptyString;
    "If you have BOTH the event name (as a clear string) AND the event date (in DD/MM/YYYY format), respond with:";
    dq +:+ "EXTRACTION_COMPLETE: {event_name} | {event_date}" +:+ dq;
    EmptyString;
    "Otherwise, ask for the missing information in a friendly way."
  ].

(** ** The state of the graph *)

Inductive BaseMessage :=
| HumanMessage (content : string)
| AIMessage (content : string).

Record EventDetails := { name : string; date : string }.

Record ContractDetails := {
  ticketPrice : string;
  maxSupply : string;
  transferable : bool;
  refundable : bool
}.

Record Attribute := { trait_type : string; value : string }.

Record Metadata := {
  description : string;
  image : string;
  attributes : list Attribute
}.

Record NftTicketObject := {
  type : string;
  eventDetails : EventDetails;
  contractDetails : ContractDetails;
  metadata : Metadata;
  status : string;
  createdAt : string
}.

(** [AdapticState], every channel of [graphConfig] with its default. *)
Record AdapticState := {
  input : string;
  chat_history : list BaseMessage;
  messages : list string;
  operation : option string;
  currentStep : option string;
  eventName : option string;
  eventDate : option string;
  nftTicketObject : option NftTicketObject
}.

(** What a node returns: a partial state; a key that is absent (or
    [undefined]) is [None]. *)
Module Upd.
Record t := {
  messages : option (list string);
  operation : option string;
  currentStep : option string;
  eventName : option string;
  eventDate : option string;
  nftTicketObject : option NftTicketObject
}.
End Upd.

(** The channel reducers.  [(x, y) => y ?? x] *)
Definition last_value {A} (x y : option A) : option A :=
  match y with
  | Some _ => y
  | None => x
  end.

(** [(x, y) => (x ?? []).concat(y ?? [])] *)
Definition concat_messages (x : list string) (y : option (list string)) : list string :=
  x ++ default [] y.

(** The update [u] with its [messages] replaced. *)
Definition with_messages (u : Upd.t) (ms : option (list string)) : Upd.t :=
  {| Upd.messages := ms;
     Upd.operation := Upd.operation u;
     Upd.currentStep := Upd.currentStep u;
     Upd.eventName := Upd.eventName u;
     Upd.eventDate := Upd.eventDate u;
     Upd.nftTicketObject := Upd.nftTicketObject u |}.

(** One write of a node's return value through the reducers. *)
Definition apply_update (s : AdapticState) (u : Upd.t) : AdapticState :=
  {| input := input s;
     chat_history := chat_history s;
     messages := concat_messages (messages s) (Upd.messages u);
     operation := last_value (operation s) (Upd.operation u);
     currentStep := last_value (currentStep s) (Upd.currentStep u);
     eventName := last_value (eventName s) (Upd.eventName u);
     eventDate := last_value (eventDate s) (Upd.eventDate u);
     nftTicketObject := last_value (nftTicketObject s) (Upd.nftTicketObject u) |}.

(** The state a request starts from: the two keys the server supplies,
    the channel defaults elsewhere. *)
Definition initialState (input0 : string) (history : list BaseMessage) : AdapticState :=
  {| input := input0;
     chat_history := history;
     messages := [];
     operation := None;
     currentStep := Some "initial";
     eventName := None;
     eventDate := None;
     nftTicketObject := None |}.

(** ** Failures and model calls *)

(** A thrown error, with its [message] property. *)
Record Failure := { message : option string }.

Inductive Result (A : Type) :=
| Ok (a : A)
| Throw (e : Failure).
Arguments Ok {A} a.
Arguments Throw {A} e.

(** What [prompt.pipe(llm).invoke] receives: the system text, the prior
    turns and the human turn. *)
Record Prompt := {
  system : string;
  history : list BaseMessage;
  human : string
}.

(** A computation that may call the model: the calls it made, in
    order, and how it ended. *)
Definition Eff (A : Type) : Type := list Prompt * Result A.

Definition ret {A} (a : A) : Eff A := ([], Ok a).

Definition bind {A B} (k : A -> Eff B) (m : Eff A) : Eff B :=
  match m with
  | (calls, Ok a) => let '(calls', r) := k a in (calls ++ calls', r)
  | (calls, Throw e) => (calls, Throw e)
  end.

#[global] Instance Eff_ret : MRet Eff := @ret.
#[global] Instance Eff_bind : MBind Eff := @bind.

(** [o === s] for an optional string [o]. *)
Definition equals (o : option string) (s : string) : bool :=
  match o with
  | Some v => String.eqb v s
  | None => false
  end.

(** [/create|event|ticket|nft|deploy|contract/.test(s)] *)
Definition intent_keywords : list string :=
  ["create"; "event"; "ticket"; "nft"; "deploy"; "contract"].

Definition isEventCreation (s : string) : bool :=
  existsb (JS.includes s) intent_keywords.

(** ** The nodes of the graph *)

Section Graph.

(** The chat model behind [prompt.pipe(llm).invoke], which returns the
    [content] of the reply or throws; and the clock read by
    [new Date().toISOString()]. *)
Variable llm : Prompt -> Result string.
Variable now : string.

Definition invoke (p : Prompt) : Eff string := ([p], llm p).

(** [introduction_node]: first the prompt of its second branch, then
    the node. *)
Definition introPrompt (state : AdapticState) : Prompt :=
  {| system := INTRODUCTION_TEMPLATE;
     history := chat_history state;
     human := input state |}.

Definition introduction_node (state : AdapticState) : Eff Upd.t :=
  let input' := JS.toLowerCase (input state) in
  if isEventCreation input' then
    mret {| Upd.operation := Some "event_creation";
            Upd.currentStep := Some "event_extraction";
            Upd.messages := Some [];
            Upd.eventName := None;
            Upd.eventDate := None;
            Upd.nftTicketObject := None |}
  else
    introResponse ← invoke (introPrompt state);
    mret {| Upd.operation := Some "introduction";
            Upd.messages := Some [introResponse];
            Upd.currentStep := Some "introduction_complete";
            Upd.eventName := None;
            Upd.eventDate := None;
            Upd.nftTicketObject := None |}.

(** [event_extraction_node]: first the prompt it builds, then the
    node. *)
Definition extractionPrompt (state : AdapticState) : Prompt :=
  let templateData : gmap string string :=
    {[ "event_name" := JS.or_else (eventName state) "Missing";
       "event_date" := JS.or_else (eventDate state) "Missing" ]} in
  let formattedTemplate := formatTemplate EVENT_EXTRACTION_TEMPLATE templateData in
  {| system := formattedTemplate;
     history := chat_history state;
     human := input state |}.

Definition event_extraction_node (state : AdapticState) : Eff Upd.t :=
  responseText ← invoke (extractionPrompt state);
  if JS.startsWith responseText "EXTRACTION_COMPLETE:" then
    let parts :=
      JS.trim <$> JS.split (JS.replace responseText "EXTRACTION_COMPLETE:" EmptyString) "|" in
    mret {| Upd.operation := Some "event_creation";
            Upd.currentStep := Some "nft_creation";
            Upd.eventName := parts !! 0;
            Upd.eventDate := parts !! 1;
            Upd.messages := Some [];
            Upd.nftTicketObject := None |}
  else
    mret {| Upd.operation := Some "event_creation";
            Upd.currentStep := Some "event_extraction";
            Upd.messages := Some [responseText];
            Upd.eventName := None;
            Upd.eventDate := None;
            Upd.nftTicketObject := None |}.

(** [nft_creation_node] *)
Definition nft_creation_node (state : AdapticState) : Eff Upd.t :=
  let nftTicketObject' :=
    {| type := "nft_ticket";
       eventDetails :=
         {| name := JS.or_else (eventName state) "Unknown Event";
            date := JS.or_else (eventDate state) "Unknown Date" |};
       contractDetails :=
         {| ticketPrice := "0.1";
            maxSupply := "100";
            transferable := true;
            refundable := false |};
       metadata :=
         {| description := "NFT Ticket for " +:+ JS.or_else (eventName state) "Event";
            image := EmptyString;
            attributes :=
              [ {| trait_type := "Event Type"; value := "General Admission" |};
                {| trait_type := "Date"; value := JS.or_else (eventDate state) "TBD" |} ] |};
       status := "ready_to_deploy";
       createdAt := now |} in
  mret {| Upd.operation := Some "event_creation";
          Upd.currentStep := Some "completed";
          Upd.nftTicketObject := Some nftTicketObject';
          Upd.eventName := None;
          Upd.eventDate := None;
          Upd.messages := Some [
            "ðŸŽ« Perfect! I've prepared your NFT ticketing contract. Here are the details:"
            +:+ nl +:+ nl +:+
            "**Event:** " +:+ name (eventDetails nftTicketObject') +:+ nl +:+
            "**Date:** " +:+ date (eventDetails nftTicketObject') +:+ nl +:+
            "**Ticket Price:** " +:+ ticketPrice (contractDetails nftTicketObject') +:+ " MASSA" +:+ nl +:+
            "**Max Supply:** " +:+ maxSupply (contractDetails nftTicketObject') +:+ " tickets"
            +:+ nl +:+ nl +:+
            "You can now deploy this NFT ticketing contract to the Massa blockchain! The contract will allow users to mint tickets as NFTs for your event." ] |}.

(** ** The graph: nodes, edges and its execution *)

Inductive Node := IntroductionNode | EventExtractionNode | NftCreationNode.

(** The name a node is registered under with [addNode]; it is the key
    of the node's update in the stream. *)
Definition node_name (n : Node) : string :=
  match n with
  | IntroductionNode => "introduction_node"
  | EventExtractionNode => "event_extraction_node"
  | NftCreationNode => "nft_creation_node"
  end.

Definition node_fn (n : Node) : AdapticState -> Eff Upd.t :=
  match n with
  | IntroductionNode => introduction_node
  | EventExtractionNode => event_extraction_node
  | NftCreationNode => nft_creation_node
  end.

Inductive Target := Goto (n : Node) | END.

(** [addEdge(START, "introduction_node")] *)
Definition START : Target := Goto IntroductionNode.

(** The edges leaving a node, evaluated on the state after the node's
    update: the two [addConditionalEdges] and the edge to [END]. *)
Definition edges (n : Node) (state : AdapticState) : Target :=
  match n with
  | IntroductionNode =>
      if equals (operation state) "event_creation" then Goto EventExtractionNode else END
  | EventExtractionNode =>
      if equals (currentStep state) "nft_creation" then Goto NftCreationNode else END
  | NftCreationNode => END
  end.

(** One run of the compiled graph, as [graph.stream] with
    [streamMode: "updates"] exposes it: the chunks [{name: update}] in
    order, the model calls made, the state reached, and the error that
    ended the iteration, if any. *)
Record Run := {
  chunks : list (string * Upd.t);
  calls : list Prompt;
  final : AdapticState;
  thrown : option Failure
}.

Definition recursionLimit : nat := 100.

Definition GraphRecursionError : Failure :=
  {| message := Some "Recursion limit of 100 reached without hitting a stop condition." |}.

(** Execute from node [n]; [steps] is what remains of the recursion
    limit. *)
Fixpoint run_from (steps : nat) (n : Node) (state : AdapticState) : Run :=
  match steps with
  | O => {| chunks := []; calls := []; final := state; thrown := Some GraphRecursionError |}
  | S steps' =>
      match node_fn n state with
      | (cs, Throw e) => {| chunks := []; calls := cs; final := state; thrown := Some e |}
      | (cs, Ok u) =>
          let state' := apply_update state u in
          match edges n state' with
          | END => {| chunks := [(node_name n, u)]; calls := cs; final := state'; thrown := None |}
          | Goto n' =>
              let r := run_from steps' n' state' in
              {| chunks := (node_name n, u) :: chunks r;
                 calls := cs ++ calls r;
                 final := final r;
                 thrown := thrown r |}
          end
      end
  end.

Definition graph_stream (state : AdapticState) : Run :=
  match START with
  | Goto n => run_from recursionLimit n state
  | END => {| chunks := []; calls := []; final := state; thrown := None |}
  end.

(** The configurations of a run: the node to execute next ([END] when
    the run is over) and the current state. *)
Inductive step : Target * AdapticState -> Target * AdapticState -> Prop :=
| step_node n state cs u :
    node_fn n state = (cs, Ok u) ->
    step (Goto n, state) (edges n (apply_update state u), apply_update state u).

Inductive reachable (input0 : string) (history0 : list BaseMessage)
  : Target * AdapticState -> Prop :=
| reach_start : reachable input0 history0 (START, initialState input0 history0)
| reach_step c c' : reachable input0 history0 c -> step c c' -> reachable input0 history0 c'.

(** The configurations of a run: a ticket is held exactly in the
    configuration the ticket-creation node leaves behind. *)
Definition ticket_invariant (c : Target * AdapticState) : Prop :=
  (nftTicketObject c.2 = None /\ currentStep c.2 <> Some "completed")
  \/ (c.1 = END /\ is_Some (nftTicketObject c.2) /\ currentStep c.2 = Some "completed").

(** One execution of some node, whichever it is, from a state. *)
Definition executes (state state' : AdapticState) : Prop :=
  exists n cs u, node_fn n state = (cs, Ok u) /\ state' = apply_update state u.

End Graph.

(** ** The server: history conversion *)

(** One element of [chat_history.map(...)]: the message built from a
    [(role, content)] pair and what [console.warn] printed for it. *)
Definition convertPair (p : string * string) : BaseMessage * list string :=
  let '(role, content) := p in
  let r := JS.toLowerCase role in
  if String.eqb r "human" then (HumanMessage content, [])
  else if String.eqb r "assistant" || String.eqb r "ai" then (AIMessage content, [])
  else (HumanMessage content,
        ["Unknown role " +:+ dq +:+ role +:+ dq +:+ " in chat history. Treating as human message."]).

(** [convertChatHistoryToMessages]: the converted messages, and the
    warnings logged on the way. *)
Fixpoint convertChatHistoryToMessages (chat_history : list (string * string))
  : list BaseMessage * list string :=
  match chat_history with
  | [] => ([], [])
  | p :: rest =>
      let '(m, w) := convertPair p in
      let '(ms, ws) := convertChatHistoryToMessages rest in
      (m :: ms, w ++ ws)
  end.

(** ** The server: the event stream of [/api/agent] *)

(** One attempt of the lazy group and the closing marker of
    [/\[OBJ\](.*?)\[\/OBJ\]/] at the head of [s]: the shortest run of
    non-terminator characters that is followed by the closing marker. *)
Fixpoint lazy_until_close (s : string) : option string :=
  if JS.startsWith s "[/OBJ]" then Some EmptyString
  else match s with
       | EmptyString => None
       | String c t => if JS.is_dot c then String c <$> lazy_until_close t else None
       end.

(** [message.match(/\[OBJ\](.*?)\[\/OBJ\]/)]: the leftmost position where
    the pattern matches; the result is the captured group. *)
Fixpoint match_OBJ (s : string) : option string :=
  match (if JS.startsWith s "[OBJ]" then lazy_until_close (JS.drop 5 s) else None) with
  | Some g => Some g
  | None => match s with
            | EmptyString => None
            | String _ t => match_OBJ t
            end
  end.

(** A chunk cut down to the first message of its update. *)
Definition first_only (c : string * Upd.t) : string * Upd.t :=
  (c.1, with_messages c.2 (take 1 <$> Upd.messages c.2)).

Section Server.

(** The records [JSON.parse] yields; [None] when it throws. *)
Context {J : Type}.
Variable JSON_parse : string -> option J.

(** What [sendEvent] writes to the response. *)
Inductive WireEvent :=
| Event (type : string) (content : string) (wager : option J)
| ErrorEvent (message : string)
| EndEvent.

(** The two flags of the handler. *)
Record Flags := {
  hasSentLoadingIndicator : bool;
  initialNodeComplete : bool
}.

(** [output?.messages?.[0]], when truthy. *)
Definition first_message (output : Upd.t) : option string :=
  match Upd.messages output ≫= (.!! 0) with
  | Some m => if JS.truthy m then Some m else None
  | None => None
  end.

(** The entries that set [initialNodeComplete]: an update of the node
    the handler calls [initial_node] whose first message is truthy. *)
Definition introduced (c : string * Upd.t) : bool :=
  String.eqb c.1 "initial_node" && bool_decide (is_Some (first_message c.2)).

(** The body of the inner loop for one entry [nodeName, nodeOutput]
    of a chunk: the flags afterwards and the events sent. *)
Definition on_entry (fl : Flags) (nodeName : string) (output : Upd.t)
  : Flags * list WireEvent :=
  let '(fl, loading) :=
    if String.eqb nodeName "initial_node" && negb (hasSentLoadingIndicator fl) then
      ({| hasSentLoadingIndicator := true; initialNodeComplete := initialNodeComplete fl |},
       [Event "loading" "Processing your request..." None])
    else (fl, []) in
  match first_message output with
  | Some message =>
      match match_OBJ message, String.eqb nodeName "wager_validation_node" with
      | Some wagerObjectMatch, true =>
          match JSON_parse wagerObjectMatch with
          | Some wagerObject =>
              (fl, loading ++ [Event "wager" "Wager created successfully!" (Some wagerObject)])
          | None =>
              (fl, loading ++ [Event "message" "Error creating wager object" None])
          end
      | _, _ =>
          if String.eqb nodeName "initial_node" then
            ({| hasSentLoadingIndicator := hasSentLoadingIndicator fl;
                initialNodeComplete := true |},
             loading ++ [Event "message" message None])
          else if String.eqb nodeName "wager_info_extraction_node"
                  || String.eqb nodeName "event_details_extraction_node" then
            (fl, loading ++ [Event "message" message None])
          else (fl, loading)
      end
  | None => (fl, loading)
  end.

(** The [for await] loop over the chunks of the stream. *)
Fixpoint consume (fl : Flags) (cs : list (string * Upd.t)) : Flags * list WireEvent :=
  match cs with
  | [] => (fl, [])
  | (nodeName, output) :: rest =>
      let '(fl', evs) := on_entry fl nodeName output in
      let '(fl'', evs') := consume fl' rest in
      (fl'', evs ++ evs')
  end.

Definition fallback_message : WireEvent :=
  Event "message"
    "I apologize, but I encountered an error processing your request. Please try again."
    None.

(** The [catch] block: what is sent when the iteration ends with a
    thrown error, given the flag at that moment. *)
Definition on_error (fl : Flags) (e : Failure) : list WireEvent :=
  (if initialNodeComplete fl then [] else [fallback_message])
  ++ [ErrorEvent (JS.or_else (message e) "An error occurred on the server."); EndEvent].

(** The [try] statement of the handler on a stream that yields
    [cs] and then either finishes or throws [thrown]. *)
Definition relay (cs : list (string * Upd.t)) (thrown : option Failure) : list WireEvent :=
  let '(fl, evs) :=
    consume {| hasSentLoadingIndicator := false; initialNodeComplete := false |} cs in
  match thrown with
  | None => evs ++ [EndEvent]
  | Some e => evs ++ on_error fl e
  end.

Inductive Response :=
| BadRequest (error : string)
| EventStream (events : list WireEvent).

Variable llm : Prompt -> Result string.
Variable now : string.

(** The handler of [GET /api/agent], from the decoded query: [input]
    ([None] when it is not a string) and the parsed [chat_history]. *)
Definition api_agent (input0 : option string) (parsedChatHistory : list (string * string))
  : Response :=
  match input0 with
  | None => BadRequest "Input query parameter is required"
  | Some input1 =>
      if negb (JS.truthy input1) then BadRequest "Input query parameter is required"
      else
        let state := initialState input1 (convertChatHistoryToMessages parsedChatHistory).1 in
        let r := graph_stream llm now state in
        EventStream (relay (chunks r) (thrown r))
  end.

End Server.

Arguments Event {J} type content wager.
Arguments ErrorEvent {J} message.
Arguments EndEvent {J}.

(** ** The server: the query of [/api/agent] *)

(** What [JSON.parse(chatHistoryString)] and the [Array.isArray] test
    make of the [chat_history] parameter: the parser throws, or the
    value is not an array, or it is the array of [role, content] pairs
    the handler's type annotation expects. *)
Inductive HistoryJSON :=
| SyntaxError (message : string)
| NotAnArray
| Pairs (chat_history : list (string * string)).

Section Request.

Context {J : Type}.
Variable JSON_parse : string -> option J.
Variable parse_history : string -> HistoryJSON.
Variable llm : Prompt -> Result string.
Variable now : string.


End Request.

(** ** Notions used in the statements below *)

(** An event of type [loading]. *)
Definition is_loading {J : Type} (ev : @WireEvent J) : bool :=
  match ev with
  | Event type _ _ => String.eqb type "loading"
  | _ => false
  end.

(** The role labels [convertChatHistoryToMessages] knows. *)
Definition recognised (role : string) : bool :=
  let r := JS.toLowerCase role in
  String.eqb r "human" || String.eqb r "assistant" || String.eqb r "ai".

(** The text before and the text after the first occurrence of
    [marker] in [s]. *)
Fixpoint cut (s marker : string) : string * string :=
  if JS.startsWith s marker then (EmptyString, JS.drop (String.length marker) s)
  else match s with
       | EmptyString => (EmptyString, EmptyString)
       | String c t => let '(b, a) := cut t marker in (String c b, a)
       end.

(** A text without line terminators. *)
Fixpoint one_line (s : string) : bool :=
  match s with
  | EmptyString => true
  | String c t => JS.is_dot c && one_line t
  end.

(** * Properties *)

#[local] Arguments String.append !_ _ / : simpl nomatch.

(** ** Strings *)

Lemma append_assoc (a b c : string) : (a +:+ b) +:+ c = a +:+ (b +:+ c).
Proof. induction a as [|x a IH]; simpl; [reflexivity | by rewrite IH]. Qed.

Lemma startsWith_append (p s : string) : JS.startsWith (p +:+ s) p = true.
Proof.
  induction p as [|c p IH]; simpl; [by destruct s |].
  by rewrite Ascii.eqb_refl, IH.
Qed.

Lemma drop_append (p s : string) : JS.drop (String.length p) (p +:+ s) = s.
Proof. induction p as [|c p IH]; simpl; [by destruct s | exact IH]. Qed.

(** Removing a leading marker with [replace]. *)
Lemma replace_prefix (p s : string) : JS.replace (p +:+ s) p EmptyString = s.
Proof.
  destruct p as [|c p].
  - by destruct s.
  - change (String c p +:+ s) with (String c (p +:+ s)).
    cbn [JS.replace].
    change (String c (p +:+ s)) with (String c p +:+ s).
    rewrite startsWith_append. apply (drop_append (String c p) s).
Qed.

(** ** The template helper *)

Lemma span_word_length (s w r : string) :
  span_word s = (w, r) -> String.length s = String.length w + String.length r.
Proof.
  revert w r. induction s as [|c s IH]; intros w r; simpl.
  - intros [= <- <-]. reflexivity.
  - destruct (JS.is_word c).
    + destruct (span_word s) as [w' r'] eqn:E. intros [= <- <-].
      simpl. f_equal. by apply IH.
    + intros [= <- <-]. reflexivity.
Qed.

Lemma match_placeholder_shorter (s key rest : string) :
  match_placeholder s = Some (key, rest) -> String.length rest < String.length s.
Proof.
  destruct s as [|c t]; simpl; [discriminate |].
  destruct (Ascii.eqb c "{"); [| discriminate].
  destruct (span_word t) as [w r] eqn:E.
  apply span_word_length in E.
  destruct w as [|k ks]; [discriminate |].
  destruct r as [|c' r]; [discriminate |].
  destruct (Ascii.eqb c' "}"); [| discriminate].
  intros [= <- <-]. simpl in E. lia.
Qed.

(** Any fuel that covers the length of the text gives the same result. *)
Lemma replace_all_fuel (data : gmap string string) (f1 f2 : nat) (s : string) :
  String.length s <= f1 -> String.length s <= f2 ->
  replace_all f1 data s = replace_all f2 data s.
Proof.
  revert f2 s. induction f1 as [|f1 IH]; intros f2 s H1 H2.
  - destruct s; [| simpl in H1; lia]. by destruct f2.
  - destruct f2 as [|f2].
    + destruct s; [reflexivity | simpl in H2; lia].
    + destruct s as [|c t]; [reflexivity |].
      cbn [replace_all].
      destruct (match_placeholder (String c t)) as [[key rest]|] eqn:E.
      * apply match_placeholder_shorter in E. simpl in H1, H2, E.
        f_equal. apply IH; lia.
      * simpl in H1, H2. f_equal. apply IH; lia.
Qed.

Lemma formatTemplate_copy (data : gmap string string) (c : ascii) (t : string) :
  match_placeholder (String c t) = None ->
  formatTemplate (String c t) data = String c (formatTemplate t data).
Proof.
  intros E. unfold formatTemplate. cbn [String.length replace_all]. by rewrite E.
Qed.

Lemma formatTemplate_match (data : gmap string string) (s key rest : string) :
  match_placeholder s = Some (key, rest) ->
  formatTemplate s data = replacer data key +:+ formatTemplate rest data.
Proof.
  intros E. unfold formatTemplate.
  destruct s as [|c t]; [discriminate |].
  cbn [String.length replace_all]. rewrite E. f_equal.
  apply match_placeholder_shorter in E. simpl in E.
  apply replace_all_fuel; lia.
Qed.

Lemma formatTemplate_no_placeholder (data : gmap string string) (s : string) :
  has_placeholder s = false -> formatTemplate s data = s.
Proof.
  induction s as [|c t IH]; [reflexivity |].
  cbn [has_placeholder].
  destruct (match_placeholder (String c t)) eqn:E; [discriminate |].
  intros H. rewrite formatTemplate_copy by done. by rewrite IH.
Qed.

Lemma span_word_extend (s w r q : string) (c : ascii) :
  JS.is_word c = false ->
  span_word s = (w, r) ->
  span_word (s +:+ String c q) = (w, r +:+ String c q).
Proof.
  intros Hc. revert w r. induction s as [|a s IH]; intros w r; simpl.
  - intros [= <- <-]. by rewrite Hc.
  - destruct (JS.is_word a).
    + destruct (span_word s) as [w' r'] eqn:E. intros [= <- <-].
      by rewrite (IH w' r').
    + by intros [= <- <-].
Qed.

Lemma span_word_name (name q : string) (c : ascii) :
  JS.is_word c = false -> all_word name = true ->
  span_word (name +:+ String c q) = (name, String c q).
Proof.
  intros Hc. induction name as [|a name IH]; simpl.
  - intros _. by rewrite Hc.
  - intros [Ha Hn]%andb_true_iff. by rewrite Ha, IH.
Qed.

(** A failed attempt stays failed when an opening brace is appended. *)
Lemma match_placeholder_extend (a : ascii) (t q : string) :
  match_placeholder (String a t) = None ->
  match_placeholder (String a t +:+ String "{" q) = None.
Proof.
  simpl. destruct (Ascii.eqb a "{"); [| done].
  destruct (span_word t) as [w r] eqn:E.
  rewrite (span_word_extend t w r q "{" eq_refl E).
  destruct w as [|k ks]; [done |].
  destruct r as [|c' r]; [done |]. simpl.
  by destruct (Ascii.eqb c' "}").
Qed.

Lemma match_placeholder_here (name post : string) :
  is_name name = true ->
  match_placeholder ("{" +:+ name +:+ "}" +:+ post) = Some (name, post).
Proof.
  intros [Ht Hw]%andb_true_iff. simpl.
  rewrite (span_word_name name post "}" eq_refl Hw).
  by destruct name.
Qed.

(** The first placeholder of a text: what precedes it is copied, the
    placeholder is handed to the replacer, the scan goes on behind it. *)
Lemma formatTemplate_first (data : gmap string string) (pre name post : string) :
  has_placeholder pre = false -> is_name name = true ->
  formatTemplate (pre +:+ "{" +:+ name +:+ "}" +:+ post) data
  = pre +:+ replacer data name +:+ formatTemplate post data.
Proof.
  intros Hpre Hname. induction pre as [|c pre IH].
  - change (formatTemplate ("{" +:+ name +:+ "}" +:+ post) data
            = replacer data name +:+ formatTemplate post data).
    by apply formatTemplate_match, match_placeholder_here.
  - cbn [has_placeholder] in Hpre.
    destruct (match_placeholder (String c pre)) eqn:E; [discriminate |].
    change (String c pre +:+ "{" +:+ name +:+ "}" +:+ post)
      with (String c (pre +:+ "{" +:+ name +:+ "}" +:+ post)).
    rewrite formatTemplate_copy.
    + rewrite IH by done. reflexivity.
    + apply (match_placeholder_extend c pre (name +:+ "}" +:+ post) E).
Qed.

Lemma replacer_value (data : gmap string string) (name v : string) :
  data !! name = Some v -> v <> EmptyString -> replacer data name = v.
Proof. intros E Hv. unfold replacer. rewrite E. by destruct v. Qed.

Lemma replacer_verbatim (data : gmap string string) (name : string) :
  (data !! name = None /\ inherited name = false) \/ data !! name = Some EmptyString ->
  replacer data name = "{" +:+ name +:+ "}".
Proof.
  unfold replacer, inherited. intros [[E Hi] | E]; rewrite E; [| reflexivity].
  by destruct (assoc name Object_prototype).
Qed.

(** C5, as amended: [formatTemplate] replaces a placeholder [{name}]
    whose name is mapped to a non-empty text by that text, and goes on
    behind it; it keeps the placeholder verbatim when the name is mapped
    to the empty text, and when the name is absent from the mapping and
    is not the name of a member inherited from [Object.prototype]; a
    text without placeholders is returned as it is, and
    [formatTemplate("Hi {name}", {})] is ["Hi {name}"].  The function is
    total. *)
Theorem formatTemplate_substitutes
    (pre name post : string) (data : gmap string string) :
  has_placeholder pre = false -> is_name name = true ->
  (forall v, data !! name = Some v -> v <> EmptyString ->
     formatTemplate (pre +:+ "{" +:+ name +:+ "}" +:+ post) data
     = pre +:+ v +:+ formatTemplate post data)
  /\ ((data !! name = None /\ inherited name = false)
      \/ data !! name = Some EmptyString ->
     formatTemplate (pre +:+ "{" +:+ name +:+ "}" +:+ post) data
     = pre +:+ "{" +:+ name +:+ "}" +:+ formatTemplate post data)
  /\ formatTemplate pre data = pre
  /\ formatTemplate "Hi {name}" ∅ = "Hi {name}".
Proof.
  intros Hpre Hname. split; [| split; [| split]].
  - intros v E Hv. rewrite formatTemplate_first by done.
    by rewrite (replacer_value data name v).
  - intros E. rewrite formatTemplate_first by done.
    rewrite (replacer_verbatim data name E). by rewrite !append_assoc.
  - by apply formatTemplate_no_placeholder.
  - vm_compute. reflexivity.
Qed.

Lemma formatTemplate_substitutes_witness :
  has_placeholder "Dear " = false /\ is_name "who" = true
  /\ formatTemplate ("Dear " +:+ "{" +:+ "who" +:+ "}" +:+ ", see {what}") {[ "who" := "Ann" ]}
     = "Dear " +:+ "Ann" +:+ formatTemplate ", see {what}" {[ "who" := "Ann" ]}.
Proof.
  split; [reflexivity | split; [reflexivity |]].
  apply (formatTemplate_substitutes "Dear " "who" ", see {what}" {[ "who" := "Ann" ]}
           eq_refl eq_refl).
  - vm_compute. reflexivity.
  - discriminate.
Defined.

(** C5 as stated fails, in two ways.  A name mapped to the empty text
    is a key of the mapping, and its placeholder is not replaced by the
    mapped value; and [constructor] is not a key of the empty mapping,
    yet its placeholder is not left verbatim: the member inherited from
    [Object.prototype] is inserted. *)
Lemma formatTemplate_empty_value_kept :
  ({[ "a" := EmptyString ]} : gmap string string) !! "a" = Some EmptyString
  /\ formatTemplate "{a}" {[ "a" := EmptyString ]} = "{a}"
  /\ formatTemplate "{a}" {[ "a" := EmptyString ]} <> EmptyString
  /\ (∅ : gmap string string) !! "constructor" = None
  /\ formatTemplate "{constructor}" ∅ = "function Object() { [native code] }"
  /\ formatTemplate "{constructor}" ∅ <> "{constructor}".
Proof. vm_compute. repeat split; discriminate. Qed.

(** ** History conversion *)

Lemma convertChatHistoryToMessages_cons (p : string * string) (rest : list (string * string)) :
  convertChatHistoryToMessages (p :: rest)
  = ((convertPair p).1 :: (convertChatHistoryToMessages rest).1,
     (convertPair p).2 ++ (convertChatHistoryToMessages rest).2).
Proof.
  simpl. destruct (convertPair p), (convertChatHistoryToMessages rest). reflexivity.
Qed.

Lemma convert_length (pairs : list (string * string)) :
  length (convertChatHistoryToMessages pairs).1 = length pairs.
Proof.
  induction pairs as [|p rest IH]; [reflexivity |].
  rewrite convertChatHistoryToMessages_cons. simpl. by rewrite IH.
Qed.

(** The message at position [i] comes from the pair at position [i]. *)
Lemma convert_lookup (pairs : list (string * string)) (i : nat) :
  (convertChatHistoryToMessages pairs).1 !! i = (fun p => (convertPair p).1) <$> pairs !! i.
Proof.
  revert i. induction pairs as [|p rest IH]; intros i; [by destruct i |].
  rewrite convertChatHistoryToMessages_cons. destruct i as [|i]; [reflexivity |].
  apply IH.
Qed.

Lemma convert_warnings (pairs : list (string * string)) (i : nat) (p : string * string) (w : string) :
  pairs !! i = Some p -> w ∈ (convertPair p).2 -> w ∈ (convertChatHistoryToMessages pairs).2.
Proof.
  revert i. induction pairs as [|q rest IH]; intros i; [by destruct i |].
  rewrite convertChatHistoryToMessages_cons. simpl.
  destruct i as [|i]; simpl.
  - intros [= ->] Hw. apply elem_of_app. by left.
  - intros Hi Hw. apply elem_of_app. right. by apply (IH i).
Qed.

(** C6: the history adapter keeps length and order; the pair at
    position [i] becomes the message at position [i], with the same
    text; the role label is compared in lower case: ["human"] gives a
    human message, ["assistant"] and ["ai"] an assistant message, any
    other label a human message together with a logged warning; the
    empty history gives the empty list, and
    [[("human","a"),("ai","b")]] gives [[Human "a"; Assistant "b"]]. *)
Theorem convertChatHistoryToMessages_spec
    (pairs : list (string * string)) (i : nat) (role content : string) :
  pairs !! i = Some (role, content) ->
  let out := convertChatHistoryToMessages pairs in
  length out.1 = length pairs
  /\ (JS.toLowerCase role = "human" -> out.1 !! i = Some (HumanMessage content))
  /\ (JS.toLowerCase role = "assistant" \/ JS.toLowerCase role = "ai" ->
      out.1 !! i = Some (AIMessage content))
  /\ (JS.toLowerCase role <> "human" -> JS.toLowerCase role <> "assistant" ->
      JS.toLowerCase role <> "ai" ->
      out.1 !! i = Some (HumanMessage content)
      /\ ("Unknown role " +:+ dq +:+ role +:+ dq
          +:+ " in chat history. Treating as human message.") ∈ out.2)
  /\ convertChatHistoryToMessages [] = ([], [])
  /\ convertChatHistoryToMessages [("human", "a"); ("ai", "b")]
     = ([HumanMessage "a"; AIMessage "b"], []).
Proof.
  intros Hi out. subst out.
  split; [apply convert_length |].
  rewrite convert_lookup, Hi. simpl.
  split; [| split; [| split; [| split]]].
  - intros ->. reflexivity.
  - intros [-> | ->]; reflexivity.
  - intros H1 H2 H3.
    apply String.eqb_neq in H1 as E1. apply String.eqb_neq in H2 as E2.
    apply String.eqb_neq in H3 as E3.
    split.
    + by rewrite E1, E2, E3.
    + apply (convert_warnings pairs i (role, content)); [done |].
      simpl. rewrite E1, E2, E3. simpl. apply list_elem_of_singleton. reflexivity.
  - reflexivity.
  - reflexivity.
Qed.

Lemma convertChatHistoryToMessages_spec_witness :
  (convertChatHistoryToMessages [("Human", "a"); ("AI", "b"); ("bot", "c")]).1 !! 1
  = Some (AIMessage "b").
Proof.
  apply (convertChatHistoryToMessages_spec
           [("Human", "a"); ("AI", "b"); ("bot", "c")] 1 "AI" "b" eq_refl).
  right. reflexivity.
Defined.

(** ** The extraction node *)

Lemma split_no_separator (a : string) (sep : ascii) :
  occurs sep a = false -> JS.split a sep = [a].
Proof.
  induction a as [|c a IH]; simpl; [reflexivity |].
  intros [Hc Ha]%orb_false_iff. rewrite Hc, IH by done. reflexivity.
Qed.

Lemma split_first_field (a t : string) (sep : ascii) :
  occurs sep a = false ->
  JS.split (a +:+ String sep t) sep = a :: JS.split t sep.
Proof.
  induction a as [|c a IH]; simpl.
  - intros _. by rewrite Ascii.eqb_refl.
  - intros [Hc Ha]%orb_false_iff. rewrite Hc, IH by done. reflexivity.
Qed.

(** Splitting undoes joining, when no field holds the separator. *)
Lemma split_join (first : string) (others : list string) (sep : ascii) :
  occurs sep first = false -> Forall (fun f => occurs sep f = false) others ->
  JS.split (join (first :: others) (String sep EmptyString)) sep = first :: others.
Proof.
  intros Hf Ho. revert first Hf.
  induction Ho as [|f others Hf' Ho IH]; intros first Hf.
  - by apply split_no_separator.
  - change (join (first :: f :: others) (String sep EmptyString))
      with (first +:+ String sep EmptyString +:+ join (f :: others) (String sep EmptyString)).
    change (String sep EmptyString +:+ ?x) with (String sep x).
    rewrite split_first_field by done. by rewrite IH.
Qed.

(** What the node returns on a reply that starts with the marker. *)
Lemma event_extraction_node_complete
    (llm : Prompt -> Result string) (state : AdapticState) (reply : string) :
  llm (extractionPrompt state) = Ok reply ->
  JS.startsWith reply "EXTRACTION_COMPLETE:" = true ->
  event_extraction_node llm state
  = ([extractionPrompt state],
     Ok (let parts :=
           JS.trim <$> JS.split (JS.replace reply "EXTRACTION_COMPLETE:" EmptyString) "|" in
         {| Upd.operation := Some "event_creation";
            Upd.currentStep := Some "nft_creation";
            Upd.eventName := parts !! 0;
            Upd.eventDate := parts !! 1;
            Upd.messages := Some [];
            Upd.nftTicketObject := None |})).
Proof.
  intros Hllm Hstart.
  unfold event_extraction_node, mbind, Eff_bind, bind, invoke.
  rewrite Hllm, Hstart. reflexivity.
Qed.

(** What the node returns on any other reply. *)
Lemma event_extraction_node_incomplete
    (llm : Prompt -> Result string) (state : AdapticState) (reply : string) :
  llm (extractionPrompt state) = Ok reply ->
  JS.startsWith reply "EXTRACTION_COMPLETE:" = false ->
  event_extraction_node llm state
  = ([extractionPrompt state],
     Ok {| Upd.operation := Some "event_creation";
           Upd.currentStep := Some "event_extraction";
           Upd.messages := Some [reply];
           Upd.eventName := None;
           Upd.eventDate := None;
           Upd.nftTicketObject := None |}).
Proof.
  intros Hllm Hstart.
  unfold event_extraction_node, mbind, Eff_bind, bind, invoke.
  rewrite Hllm, Hstart. reflexivity.
Qed.

(** C2, as amended: on a reply that starts with [EXTRACTION_COMPLETE:]
    the marker is removed and the remainder is split on every [|]; the
    first field, trimmed, is stored as the event name and the second
    field, trimmed, as the event date; further fields are dropped, and
    when there is no separator no date is written (the state keeps the
    date it had).  In each of these cases the node returns normally,
    emits no message and the machine moves on to the ticket-creation
    node. *)
Theorem extraction_complete_advances
    (llm : Prompt -> Result string) (state : AdapticState)
    (first : string) (others : list string) :
  occurs "|" first = false ->
  Forall (fun f => occurs "|" f = false) others ->
  llm (extractionPrompt state)
  = Ok ("EXTRACTION_COMPLETE:" +:+ join (first :: others) "|") ->
  exists u,
    event_extraction_node llm state = ([extractionPrompt state], Ok u)
    /\ Upd.eventName u = Some (JS.trim first)
    /\ Upd.eventDate u = JS.trim <$> head others
    /\ Upd.messages u = Some []
    /\ Upd.currentStep u = Some "nft_creation"
    /\ eventName (apply_update state u) = Some (JS.trim first)
    /\ eventDate (apply_update state u)
       = match others with
         | [] => eventDate state
         | d :: _ => Some (JS.trim d)
         end
    /\ edges EventExtractionNode (apply_update state u) = Goto NftCreationNode.
Proof.
  intros Hf Ho Hllm.
  eexists. split.
  { apply (event_extraction_node_complete llm state _ Hllm).
    apply startsWith_append. }
  cbv zeta. rewrite replace_prefix.
  rewrite (split_join first others "|" Hf Ho).
  destruct others as [|d others]; simpl; repeat split; reflexivity.
Qed.

Lemma extraction_complete_advances_witness :
  exists u,
    event_extraction_node (fun _ => Ok "EXTRACTION_COMPLETE: Expo |01/02/2026 | x")
      (initialState "create" [])
    = ([extractionPrompt (initialState "create" [])], Ok u)
    /\ Upd.eventName u = Some "Expo"
    /\ Upd.eventDate u = Some "01/02/2026".
Proof.
  destruct (extraction_complete_advances
              (fun _ => Ok "EXTRACTION_COMPLETE: Expo |01/02/2026 | x")
              (initialState "create" []) " Expo " ["01/02/2026 "; " x"])
    as (u & Hu & Hn & Hd & _).
  - reflexivity.
  - repeat constructor.
  - reflexivity.
  - exists u. split; [exact Hu |]. split; [exact Hn | exact Hd].
Defined.

(** C2 as stated fails: a reply with the marker and no separator is not
    treated as incomplete; the node moves on to ticket creation with no
    date written, and the run goes through the ticket-creation node. *)
Lemma extraction_without_separator_advances :
  let llm := fun _ : Prompt => Ok "EXTRACTION_COMPLETE: Gala" in
  (event_extraction_node llm (initialState "create event" [])).2
  = Ok {| Upd.operation := Some "event_creation";
          Upd.currentStep := Some "nft_creation";
          Upd.eventName := Some "Gala";
          Upd.eventDate := None;
          Upd.messages := Some [];
          Upd.nftTicketObject := None |}
  /\ (chunks (graph_stream llm "2026-01-01T00:00:00.000Z" (initialState "create event" []))).*1
     = ["introduction_node"; "event_extraction_node"; "nft_creation_node"]
  /\ currentStep (final (graph_stream llm "2026-01-01T00:00:00.000Z"
                           (initialState "create event" [])))
     <> Some "event_extraction".
Proof. vm_compute. repeat split. discriminate. Qed.

(** C4: on the reply ["EXTRACTION_COMPLETE: Summer Gala | 25/12/2025"]
    the extraction node stores the event name ["Summer Gala"] and the
    event date ["25/12/2025"], both trimmed, and the machine moves on to
    the ticket-creation node. *)
Theorem extraction_summer_gala
    (llm : Prompt -> Result string) (state : AdapticState) :
  llm (extractionPrompt state) = Ok "EXTRACTION_COMPLETE: Summer Gala | 25/12/2025" ->
  exists u,
    event_extraction_node llm state = ([extractionPrompt state], Ok u)
    /\ eventName (apply_update state u) = Some "Summer Gala"
    /\ eventDate (apply_update state u) = Some "25/12/2025"
    /\ currentStep (apply_update state u) = Some "nft_creation"
    /\ edges EventExtractionNode (apply_update state u) = Goto NftCreationNode.
Proof.
  intros Hllm. eexists. split.
  { by apply (event_extraction_node_complete llm state _ Hllm). }
  repeat split.
Qed.

Lemma extraction_summer_gala_witness :
  exists u,
    event_extraction_node (fun _ => Ok "EXTRACTION_COMPLETE: Summer Gala | 25/12/2025")
      (initialState "I want to create an event" [HumanMessage "hi"])
    = ([extractionPrompt (initialState "I want to create an event" [HumanMessage "hi"])], Ok u)
    /\ eventName (apply_update (initialState "I want to create an event" [HumanMessage "hi"]) u)
       = Some "Summer Gala"
    /\ eventDate (apply_update (initialState "I want to create an event" [HumanMessage "hi"]) u)
       = Some "25/12/2025".
Proof.
  destruct (extraction_summer_gala
              (fun _ => Ok "EXTRACTION_COMPLETE: Summer Gala | 25/12/2025")
              (initialState "I want to create an event" [HumanMessage "hi"]) eq_refl)
    as (u & Hu & Hn & Hd & _).
  exists u. split; [exact Hu |]. split; [exact Hn | exact Hd].
Defined.

(** ** What the nodes write *)

Lemma introduction_node_writes
    (llm : Prompt -> Result string) (state : AdapticState) (cs : list Prompt) (u : Upd.t) :
  introduction_node llm state = (cs, Ok u) ->
  Upd.nftTicketObject u = None /\ Upd.eventName u = None /\ Upd.eventDate u = None
  /\ (Upd.currentStep u = Some "event_extraction"
      \/ Upd.currentStep u = Some "introduction_complete").
Proof.
  unfold introduction_node.
  destruct (isEventCreation _).
  - intros [= <- <-]. simpl. auto.
  - unfold mbind, Eff_bind, bind, invoke.
    destruct (llm _); [| discriminate].
    intros [= <- <-]. simpl. auto.
Qed.

Lemma event_extraction_node_writes
    (llm : Prompt -> Result string) (state : AdapticState) (cs : list Prompt) (u : Upd.t) :
  event_extraction_node llm state = (cs, Ok u) ->
  Upd.nftTicketObject u = None
  /\ (Upd.currentStep u = Some "nft_creation"
      \/ Upd.currentStep u = Some "event_extraction").
Proof.
  unfold event_extraction_node, mbind, Eff_bind, bind, invoke.
  destruct (llm _) as [reply|]; [| discriminate].
  destruct (JS.startsWith reply _); intros [= <- <-]; simpl; auto.
Qed.

Lemma nft_creation_node_writes
    (now : string) (state : AdapticState) (cs : list Prompt) (u : Upd.t) :
  nft_creation_node now state = (cs, Ok u) ->
  cs = [] /\ is_Some (Upd.nftTicketObject u) /\ Upd.currentStep u = Some "completed"
  /\ Upd.eventName u = None /\ Upd.eventDate u = None.
Proof. intros [= <- <-]. simpl. eauto. Qed.

Lemma ticket_invariant_reachable
    (llm : Prompt -> Result string) (now input0 : string) (history0 : list BaseMessage)
    (c : Target * AdapticState) :
  reachable llm now input0 history0 c -> ticket_invariant c.
Proof.
  induction 1 as [|c c' Hreach IH Hstep].
  - left. simpl. split; [reflexivity | discriminate].
  - destruct Hstep as [n state cs u Hn].
    destruct IH as [[Hticket Hstep] | [[=] _]]. simpl in Hticket, Hstep.
    destruct n; simpl in Hn.
    + apply introduction_node_writes in Hn as (Ht & _ & _ & Hs).
      left. simpl. rewrite Ht, Hticket. split; [reflexivity |].
      destruct Hs as [-> | ->]; discriminate.
    + apply event_extraction_node_writes in Hn as (Ht & Hs).
      left. simpl. rewrite Ht, Hticket. split; [reflexivity |].
      destruct Hs as [-> | ->]; discriminate.
    + apply nft_creation_node_writes in Hn as (_ & [t Ht] & Hs & _).
      right. simpl. rewrite Ht, Hs. simpl. eauto.
Qed.

(** The state a run ends in (or stops in, when it throws) is reachable. *)
Lemma run_from_reachable
    (llm : Prompt -> Result string) (now input0 : string) (history0 : list BaseMessage)
    (steps : nat) (n : Node) (state : AdapticState) :
  reachable llm now input0 history0 (Goto n, state) ->
  exists t, reachable llm now input0 history0 (t, final (run_from llm now steps n state)).
Proof.
  revert n state. induction steps as [|steps IH]; intros n state Hr.
  - eexists. exact Hr.
  - cbn [run_from].
    destruct (node_fn llm now n state) as [cs [u|e]] eqn:Hn.
    + pose proof (reach_step llm now input0 history0 _ _ Hr
                    (step_node llm now n state cs u Hn)) as Hr'.
      destruct (edges n (apply_update state u)) as [n'|] eqn:He.
      * destruct (IH n' _ Hr') as [t Ht]. eexists. exact Ht.
      * eexists. exact Hr'.
    + eexists. exact Hr.
Qed.

(** C8, as amended: in every configuration a run of the graph can
    reach, the ticket object is set if and only if the current step is
    ["completed"], the step that the ticket-creation node writes. *)
Theorem ticket_iff_completed
    (llm : Prompt -> Result string) (now input0 : string) (history0 : list BaseMessage)
    (t : Target) (state : AdapticState) :
  reachable llm now input0 history0 (t, state) ->
  (is_Some (nftTicketObject state) <-> currentStep state = Some "completed").
Proof.
  intros Hr. apply ticket_invariant_reachable in Hr.
  destruct Hr as [[Ht Hs] | (_ & Ht & Hs)]; simpl in *.
  - rewrite Ht. split; [intros [? [=]] | done].
  - done.
Qed.

Lemma ticket_iff_completed_witness :
  let r := graph_stream (fun _ => Ok "EXTRACTION_COMPLETE: Expo | 01/02/2026")
             "2026-01-01T00:00:00.000Z" (initialState "create event" []) in
  currentStep (final r) = Some "completed"
  /\ (is_Some (nftTicketObject (final r)) <-> currentStep (final r) = Some "completed").
Proof.
  intros r. split; [reflexivity |].
  destruct (run_from_reachable (fun _ => Ok "EXTRACTION_COMPLETE: Expo | 01/02/2026")
              "2026-01-01T00:00:00.000Z" "create event" [] recursionLimit
              IntroductionNode (initialState "create event" [])
              (reach_start _ _ _ _)) as [t Ht].
  exact (ticket_iff_completed _ _ _ _ t (final r) Ht).
Defined.

(** ** Event name and date *)

Lemma last_value_keeps {A} (x y : option A) : is_Some x -> is_Some (last_value x y).
Proof. intros Hx. destruct y; simpl; eauto. Qed.

(** Before the extraction node has run, neither field is set. *)
Lemma fields_unset_before_extraction
    (llm : Prompt -> Result string) (now input0 : string) (history0 : list BaseMessage)
    (n : Node) (state : AdapticState) :
  reachable llm now input0 history0 (Goto n, state) ->
  n <> NftCreationNode ->
  eventName state = None /\ eventDate state = None.
Proof.
  intros Hr. remember (Goto n, state) as c eqn:Ec. revert n state Ec.
  induction Hr as [|c c' Hr IH Hstep]; intros n state Ec Hn.
  - by injection Ec as _ <-.
  - destruct Hstep as [m st cs u Hm].
    injection Ec as He Hs. subst state.
    destruct m; simpl in He, Hm.
    + destruct (IH IntroductionNode st eq_refl) as [Hname Hdate]; [done |].
      apply introduction_node_writes in Hm as (_ & Hn' & Hd' & _).
      simpl. by rewrite Hn', Hd', Hname, Hdate.
    + destruct (equals _ _); [| discriminate]. injection He as <-. done.
    + discriminate.
Qed.

(** One step of a run keeps the value of a field that is set. *)
Lemma step_keeps_fields
    (llm : Prompt -> Result string) (now input0 : string) (history0 : list BaseMessage)
    (c c' : Target * AdapticState) :
  reachable llm now input0 history0 c -> step llm now c c' ->
  (forall v, eventName c.2 = Some v -> eventName c'.2 = Some v)
  /\ (forall v, eventDate c.2 = Some v -> eventDate c'.2 = Some v).
Proof.
  intros Hr Hstep. destruct Hstep as [n state cs u Hn]. simpl.
  destruct n; simpl in Hn.
  - apply introduction_node_writes in Hn as (_ & -> & -> & _). done.
  - destruct (fields_unset_before_extraction _ _ _ _ _ _ Hr) as [-> ->]; done.
  - apply nft_creation_node_writes in Hn as (_ & _ & _ & -> & ->). done.
Qed.

(** C9: an event name or event date that is set is never cleared.  In
    a run of the graph every later configuration holds the very same
    value; and whatever nodes execute, in whatever order and from
    whatever state, a field that is set stays set. *)
Theorem event_fields_monotone
    (llm : Prompt -> Result string) (now input0 : string) (history0 : list BaseMessage)
    (c c' : Target * AdapticState) (state state' : AdapticState) :
  (reachable llm now input0 history0 c -> rtc (step llm now) c c' ->
   (forall v, eventName c.2 = Some v -> eventName c'.2 = Some v)
   /\ (forall v, eventDate c.2 = Some v -> eventDate c'.2 = Some v))
  /\ (rtc (executes llm now) state state' ->
      (is_Some (eventName state) -> is_Some (eventName state'))
      /\ (is_Some (eventDate state) -> is_Some (eventDate state'))).
Proof.
  split.
  - intros Hr Hsteps.
    induction Hsteps as [c | c mid c' Hstep _ IH]; [done |].
    destruct (step_keeps_fields _ _ _ _ _ _ Hr Hstep) as [Hn Hd].
    destruct (IH (reach_step _ _ _ _ _ _ Hr Hstep)) as [IHn IHd].
    split; intros v Hv; [apply IHn, Hn, Hv | apply IHd, Hd, Hv].
  - induction 1 as [st | st mid st' Hexec _ [IHn IHd]]; [done |].
    destruct Hexec as (n & cs & u & _ & ->).
    split; intros Hs.
    + apply IHn. simpl. by apply last_value_keeps.
    + apply IHd. simpl. by apply last_value_keeps.
Qed.

Lemma step_to
    (llm : Prompt -> Result string) (now : string) (n : Node) (state : AdapticState)
    (cs : list Prompt) (u : Upd.t) (c' : Target * AdapticState) :
  node_fn llm now n state = (cs, Ok u) ->
  c' = (edges n (apply_update state u), apply_update state u) ->
  step llm now (Goto n, state) c'.
Proof. intros Hn ->. by apply (step_node llm now n state cs u). Qed.

Lemma event_fields_monotone_witness :
  let llm := fun _ : Prompt => Ok "EXTRACTION_COMPLETE: Expo | 01/02/2026" in
  let now := "2026-01-01T00:00:00.000Z" in
  let s2 := {| input := "create event"; chat_history := []; messages := [];
               operation := Some "event_creation"; currentStep := Some "nft_creation";
               eventName := Some "Expo"; eventDate := Some "01/02/2026";
               nftTicketObject := None |} in
  let s3 := final (run_from llm now 1 NftCreationNode s2) in
  eventName s3 = Some "Expo" /\ eventDate s3 = Some "01/02/2026".
Proof.
  intros llm now s2 s3.
  assert (Hr : reachable llm now "create event" [] (Goto NftCreationNode, s2)).
  { eapply reach_step; [eapply reach_step; [apply reach_start |] |].
    - eapply step_to; reflexivity.
    - eapply step_to; reflexivity. }
  assert (Hs : rtc (step llm now) (Goto NftCreationNode, s2) (END, s3)).
  { apply rtc_once. eapply step_to; reflexivity. }
  destruct (event_fields_monotone llm now "create event" []
              (Goto NftCreationNode, s2) (END, s3) s2 s2) as [H _].
  destruct (H Hr Hs) as [Hn Hd].
  split; [apply Hn | apply Hd]; reflexivity.
Defined.

(** ** The terminal configurations *)

(** C8 as stated fails, the Completed stage being the terminal stage of
    a run: a run on an input without intent keyword is over after the
    introduction node, and the configuration it ends in holds no ticket;
    its step is ["introduction_complete"]. *)
Lemma terminal_without_ticket :
  let llm := fun _ : Prompt => Ok "Hi" in
  let now := "2026-01-01T00:00:00.000Z" in
  let r := graph_stream llm now (initialState "hello" []) in
  thrown r = None
  /\ reachable llm now "hello" [] (END, final r)
  /\ nftTicketObject (final r) = None
  /\ currentStep (final r) = Some "introduction_complete".
Proof.
  intros llm now r.
  split; [reflexivity |]. split; [| split; reflexivity].
  eapply reach_step; [apply reach_start |].
  eapply step_to; reflexivity.
Qed.

(** ** The event stream *)

Section Relay.

Context {J : Type}.
Variable JSON_parse : string -> option J.

Lemma first_message_with_messages (u : Upd.t) (m : string) (rest : list string) :
  first_message (with_messages u (Some (m :: rest)))
  = if JS.truthy m then Some m else None.
Proof. reflexivity. Qed.

Lemma first_message_first_only (c : string * Upd.t) :
  first_message (first_only c).2 = first_message c.2.
Proof.
  destruct c as [nodeName u]. unfold first_message. simpl.
  destruct (Upd.messages u) as [[|m rest]|]; reflexivity.
Qed.

(** The loop body reads the update through [first_message] only. *)
Lemma on_entry_first_message (fl : Flags) (nodeName : string) (u u' : Upd.t) :
  first_message u = first_message u' ->
  on_entry JSON_parse fl nodeName u = on_entry JSON_parse fl nodeName u'.
Proof. intros E. unfold on_entry. by rewrite E. Qed.

Lemma consume_first_only (fl : Flags) (cs : list (string * Upd.t)) :
  consume JSON_parse fl cs = consume JSON_parse fl (first_only <$> cs).
Proof.
  revert fl. induction cs as [|[nodeName u] cs IH]; intros fl; [reflexivity |].
  cbn [fmap list_fmap consume first_only fst snd].
  rewrite (on_entry_first_message fl nodeName u
             (with_messages u (take 1 <$> Upd.messages u))).
  - destruct (on_entry _ _ _ _) as [fl' evs]. by rewrite IH.
  - symmetry. apply (first_message_first_only (nodeName, u)).
Qed.

(** The events one entry can give rise to. *)
Lemma on_entry_events (fl : Flags) (nodeName : string) (u : Upd.t) (ev : WireEvent) :
  ev ∈ (on_entry JSON_parse fl nodeName u).2 ->
  ev = Event "loading" "Processing your request..." None
  \/ ev = Event "message" "Error creating wager object" None
  \/ exists m, first_message u = Some m
       /\ (ev = Event "message" m None
           \/ exists g w, match_OBJ m = Some g /\ JSON_parse g = Some w
                /\ ev = Event "wager" "Wager created successfully!" (Some w)).
Proof.
  unfold on_entry.
  destruct (String.eqb nodeName "initial_node" && negb (hasSentLoadingIndicator fl));
    destruct (first_message u) as [m|];
    try destruct (match_OBJ m) as [g|] eqn:Eg;
    try destruct (String.eqb nodeName "wager_validation_node");
    try destruct (JSON_parse g) as [w|] eqn:Ew;
    try destruct (String.eqb nodeName "initial_node");
    try destruct (String.eqb nodeName "wager_info_extraction_node"
                  || String.eqb nodeName "event_details_extraction_node");
    simpl; intros H;
    repeat (apply elem_of_cons in H as [-> | H]);
    try (by apply elem_of_nil in H); eauto 15.
Qed.

(** C10: the loop body looks at the first message of an update only.
    The messages after the first change nothing: neither the events
    sent for the entry nor the flags, for one entry and for a whole
    stream; and an event sent for an entry is the loading notice, the
    diagnostic text, the first message itself, or the record parsed
    out of the first message. *)
Theorem only_first_message_relayed
    (fl : Flags) (nodeName : string) (u : Upd.t) (m : string) (rest : list string)
    (cs : list (string * Upd.t)) (ev : WireEvent) :
  on_entry JSON_parse fl nodeName (with_messages u (Some (m :: rest)))
  = on_entry JSON_parse fl nodeName (with_messages u (Some [m]))
  /\ consume JSON_parse fl cs = consume JSON_parse fl (first_only <$> cs)
  /\ (ev ∈ (on_entry JSON_parse fl nodeName (with_messages u (Some (m :: rest)))).2 ->
      ev = Event "loading" "Processing your request..." None
      \/ ev = Event "message" "Error creating wager object" None
      \/ ev = Event "message" m None
      \/ exists g w, match_OBJ m = Some g /\ JSON_parse g = Some w
           /\ ev = Event "wager" "Wager created successfully!" (Some w)).
Proof.
  split; [| split].
  - by apply on_entry_first_message.
  - apply consume_first_only.
  - intros Hev. apply on_entry_events in Hev as [-> | [-> | (m' & Hm & Hev)]]; auto.
    rewrite first_message_with_messages in Hm.
    destruct (JS.truthy m); [| discriminate]. injection Hm as <-.
    destruct Hev as [-> | Hev]; auto.
Qed.

End Relay.

Lemma only_first_message_relayed_witness :
  let JSON_parse := fun s : string => Some s in
  let fl := {| hasSentLoadingIndicator := false; initialNodeComplete := false |} in
  let u := {| Upd.messages := None; Upd.operation := None;
              Upd.currentStep := None; Upd.eventName := None; Upd.eventDate := None;
              Upd.nftTicketObject := None |} in
  on_entry JSON_parse fl "initial_node" (with_messages u (Some ["first"; "second"]))
  = ({| hasSentLoadingIndicator := true; initialNodeComplete := true |},
     [Event "loading" "Processing your request..." None; Event "message" "first" None])
  /\ on_entry JSON_parse fl "initial_node" (with_messages u (Some ["first"; "second"]))
     = on_entry JSON_parse fl "initial_node" (with_messages u (Some ["first"])).
Proof.
  intros JSON_parse fl u. split; [reflexivity |].
  apply (only_first_message_relayed JSON_parse fl "initial_node" u "first" ["second"] []
           EndEvent).
Defined.

Section RelayRun.

Context {J : Type}.
Variable JSON_parse : string -> option J.

(** An entry under a name the loop does not know changes nothing and
    sends nothing. *)
Lemma on_entry_unknown (fl : Flags) (nodeName : string) (u : Upd.t) :
  String.eqb nodeName "initial_node" = false ->
  String.eqb nodeName "wager_validation_node" = false ->
  String.eqb nodeName "wager_info_extraction_node" = false ->
  String.eqb nodeName "event_details_extraction_node" = false ->
  on_entry JSON_parse fl nodeName u = (fl, []).
Proof.
  intros E1 E2 E3 E4. unfold on_entry. rewrite E1, E2, E3, E4. simpl.
  destruct (first_message u) as [m|]; [| reflexivity].
  by destruct (match_OBJ m).
Qed.

(** None of the names the graph registers is known to the loop. *)
Lemma on_entry_graph_node (fl : Flags) (n : Node) (u : Upd.t) :
  on_entry JSON_parse fl (node_name n) u = (fl, []).
Proof. apply on_entry_unknown; by destruct n. Qed.

Lemma consume_graph_chunks (fl : Flags) (cs : list (string * Upd.t)) :
  Forall (fun c => exists n, c.1 = node_name n) cs ->
  consume JSON_parse fl cs = (fl, []).
Proof.
  induction 1 as [|[nodeName u] cs [n Hn] _ IH]; [reflexivity |].
  simpl in Hn. subst nodeName. cbn [consume].
  by rewrite on_entry_graph_node, IH.
Qed.

Lemma run_from_chunk_names
    (llm : Prompt -> Result string) (now : string)
    (steps : nat) (n : Node) (state : AdapticState) :
  Forall (fun c => exists n', c.1 = node_name n') (chunks (run_from llm now steps n state)).
Proof.
  revert n state. induction steps as [|steps IH]; intros n state; [constructor |].
  cbn [run_from].
  destruct (node_fn llm now n state) as [cs [u|e]]; [| constructor].
  destruct (edges n (apply_update state u)) as [n'|]; simpl.
  - constructor; [by exists n | apply IH].
  - constructor; [by exists n | constructor].
Qed.

(** What the handler sends for a run of the graph. *)
Lemma relay_graph_stream
    (llm : Prompt -> Result string) (now : string) (state : AdapticState) :
  let r := graph_stream llm now state in
  relay JSON_parse (chunks r) (thrown r)
  = match thrown r with
    | None => [EndEvent]
    | Some e =>
        [fallback_message;
         ErrorEvent (JS.or_else (message e) "An error occurred on the server.");
         EndEvent]
    end.
Proof.
  intros r. unfold relay.
  rewrite (consume_graph_chunks _ (chunks r)) by apply run_from_chunk_names.
  by destruct (thrown r).
Qed.

(** What the payload branch does for an entry under the name it is
    guarded by: the parsed record as a [wager] event, or the diagnostic
    message when parsing throws. *)
Lemma on_entry_wager_validation (fl : Flags) (u : Upd.t) (m g : string) :
  first_message u = Some m -> match_OBJ m = Some g ->
  on_entry JSON_parse fl "wager_validation_node" u
  = (fl, [match JSON_parse g with
          | Some wagerObject => Event "wager" "Wager created successfully!" (Some wagerObject)
          | None => Event "message" "Error creating wager object" None
          end]).
Proof.
  intros Hm Hg. unfold on_entry. simpl. rewrite Hm, Hg.
  by destruct (JSON_parse g).
Qed.

Lemma on_entry_flag (fl : Flags) (nodeName : string) (u : Upd.t) :
  initialNodeComplete (on_entry JSON_parse fl nodeName u).1
  = initialNodeComplete fl || introduced (nodeName, u).
Proof.
  unfold on_entry, introduced. simpl.
  destruct (String.eqb nodeName "initial_node") eqn:E.
  - apply String.eqb_eq in E as ->. simpl.
    destruct (first_message u) as [m|]; simpl.
    + destruct (hasSentLoadingIndicator fl), (match_OBJ m); simpl;
        by rewrite orb_true_r.
    + destruct (hasSentLoadingIndicator fl); simpl; by rewrite orb_false_r.
  - simpl. rewrite orb_false_r.
    destruct (first_message u) as [m|]; [| reflexivity].
    destruct (match_OBJ m), (String.eqb nodeName "wager_validation_node");
      try destruct (JSON_parse _);
      try destruct (String.eqb nodeName "wager_info_extraction_node"
                    || String.eqb nodeName "event_details_extraction_node");
      reflexivity.
Qed.

Lemma consume_flag (fl : Flags) (cs : list (string * Upd.t)) :
  initialNodeComplete (consume JSON_parse fl cs).1
  = initialNodeComplete fl || existsb introduced cs.
Proof.
  revert fl. induction cs as [|[nodeName u] cs IH]; intros fl.
  - simpl. by rewrite orb_false_r.
  - cbn [consume existsb].
    pose proof (on_entry_flag fl nodeName u) as Hf.
    destruct (on_entry JSON_parse fl nodeName u) as [fl' evs].
    specialize (IH fl'). destruct (consume JSON_parse fl' cs) as [fl'' evs'].
    simpl in *. by rewrite IH, Hf, orb_assoc.
Qed.

Lemma last_snoc_end (evs : list (@WireEvent J)) (pre : list WireEvent) :
  last (evs ++ pre ++ [EndEvent]) = Some EndEvent.
Proof. by rewrite app_assoc, last_snoc. Qed.

(** C7: when the iteration over the run throws, the handler sends the
    apologetic message unless a message of the node it takes for the
    introduce stage has been relayed before, then an [error] event with
    the failure's message (a stock text when it has none), then [end];
    with or without a failure the last event of a stream is [end].  For
    the runs of the graph: the stream is [end] alone, or the three
    events of the failure path. *)
Theorem failure_reported_then_end (cs : list (string * Upd.t)) (e : Failure) :
  let description := JS.or_else (message e) "An error occurred on the server." in
  exists evs,
    relay JSON_parse cs None = evs ++ [EndEvent]
    /\ (existsb introduced cs = false ->
        relay JSON_parse cs (Some e)
        = evs ++ [fallback_message; ErrorEvent description; EndEvent])
    /\ (existsb introduced cs = true ->
        relay JSON_parse cs (Some e) = evs ++ [ErrorEvent description; EndEvent])
    /\ (forall m, message e = Some m -> m <> EmptyString -> description = m)
    /\ (forall thrown, last (relay JSON_parse cs thrown) = Some EndEvent)
    /\ (forall llm now input0 parsedChatHistory,
          JS.truthy input0 = true ->
          let r := graph_stream llm now
                     (initialState input0 (convertChatHistoryToMessages parsedChatHistory).1) in
          api_agent JSON_parse llm now (Some input0) parsedChatHistory
          = EventStream
              match thrown r with
              | None => [EndEvent]
              | Some e' =>
                  [fallback_message;
                   ErrorEvent (JS.or_else (message e') "An error occurred on the server.");
                   EndEvent]
              end).
Proof.
  intros description. unfold relay.
  pose proof (consume_flag
                {| hasSentLoadingIndicator := false; initialNodeComplete := false |} cs) as Hf.
  destruct (consume JSON_parse _ cs) as [fl evs]. simpl in Hf.
  exists evs. split; [reflexivity |].
  split; [| split; [| split; [| split]]].
  - intros Hi. unfold on_error. by rewrite Hf, Hi.
  - intros Hi. unfold on_error. by rewrite Hf, Hi.
  - intros m Hm Hne. unfold description. rewrite Hm. by destruct m.
  - intros [e'|].
    + unfold on_error. destruct (initialNodeComplete fl).
      * apply (last_snoc_end evs [ErrorEvent _]).
      * apply (last_snoc_end evs [fallback_message; ErrorEvent _]).
    + apply last_snoc.
  - intros llm now input0 ph Ht. unfold api_agent. rewrite Ht. simpl.
    f_equal. apply relay_graph_stream.
Qed.

End RelayRun.

Lemma failure_reported_then_end_witness :
  let JSON_parse := fun s : string => Some s in
  let cs := [("initial_node",
              {| Upd.messages := Some ["Welcome"]; Upd.operation := None;
                 Upd.currentStep := None; Upd.eventName := None; Upd.eventDate := None;
                 Upd.nftTicketObject := None |})] in
  let e := {| message := Some "model unavailable" |} in
  existsb introduced cs = true
  /\ (exists evs,
        relay JSON_parse cs None = evs ++ [EndEvent]
        /\ relay JSON_parse cs (Some e) = evs ++ [ErrorEvent "model unavailable"; EndEvent])
  /\ (exists evs,
        relay JSON_parse [] None = evs ++ [EndEvent]
        /\ relay JSON_parse [] (Some e)
           = evs ++ [fallback_message; ErrorEvent "model unavailable"; EndEvent]).
Proof.
  intros JSON_parse cs e. split; [reflexivity |]. split.
  - destruct (failure_reported_then_end JSON_parse cs e) as (evs & Hn & _ & Hi & _).
    exists evs. split; [exact Hn | exact (Hi eq_refl)].
  - destruct (failure_reported_then_end JSON_parse [] e) as (evs & Hn & Hf & _).
    exists evs. split; [exact Hn | exact (Hf eq_refl)].
Defined.

(** ** Runs of the graph as the handler relays them *)

Lemma run_from_step
    (llm : Prompt -> Result string) (now : string)
    (steps : nat) (n : Node) (state : AdapticState) :
  run_from llm now (S steps) n state
  = match node_fn llm now n state with
    | (cs, Throw e) => {| chunks := []; calls := cs; final := state; thrown := Some e |}
    | (cs, Ok u) =>
        let state' := apply_update state u in
        match edges n state' with
        | END => {| chunks := [(node_name n, u)]; calls := cs; final := state'; thrown := None |}
        | Goto n' =>
            let r := run_from llm now steps n' state' in
            {| chunks := (node_name n, u) :: chunks r;
               calls := cs ++ calls r;
               final := final r;
               thrown := thrown r |}
        end
    end.
Proof. reflexivity. Qed.

(** A run on an input without intent keywords, when the model answers:
    one model call, one chunk, the reply as the only message, and the
    introduction step as the last step. *)
Lemma introduction_run
    (llm : Prompt -> Result string) (now : string) (state : AdapticState) (reply : string) :
  isEventCreation (JS.toLowerCase (input state)) = false ->
  llm (introPrompt state) = Ok reply ->
  let u := {| Upd.operation := Some "introduction";
              Upd.messages := Some [reply];
              Upd.currentStep := Some "introduction_complete";
              Upd.eventName := None;
              Upd.eventDate := None;
              Upd.nftTicketObject := None |} in
  graph_stream llm now state
  = {| chunks := [("introduction_node", u)];
       calls := [introPrompt state];
       final := apply_update state u;
       thrown := None |}.
Proof.
  intros Hkw Hllm u.
  unfold graph_stream, START. rewrite (run_from_step llm now 99).
  unfold node_fn, introduction_node, mbind, Eff_bind, bind, invoke.
  rewrite Hkw, Hllm. reflexivity.
Qed.

(** A run on an input with an intent keyword: the introduction node
    calls no model and hands over to the extraction node. *)
Lemma introduction_skips_model
    (llm : Prompt -> Result string) (state : AdapticState) :
  isEventCreation (JS.toLowerCase (input state)) = true ->
  exists u,
    introduction_node llm state = ([], Ok u)
    /\ Upd.messages u = Some []
    /\ edges IntroductionNode (apply_update state u) = Goto EventExtractionNode.
Proof.
  intros Hkw. unfold introduction_node. rewrite Hkw.
  eexists. split; [reflexivity |]. split; reflexivity.
Qed.

(** C1, evaluated on the input ["hello"], which holds none of the intent
    keywords: the run makes one model call and ends after the
    introduction node, whose update carries the reply; the handler
    relays neither a loading notice nor the reply, the stream is the
    [end] event alone. *)
Theorem introduction_reply_not_relayed {J : Type} (JSON_parse : string -> option J)
    (now reply : string) (parsedChatHistory : list (string * string)) :
  let llm := fun _ : Prompt => Ok reply in
  let state := initialState "hello" (convertChatHistoryToMessages parsedChatHistory).1 in
  let r := graph_stream llm now state in
  isEventCreation (JS.toLowerCase "hello") = false
  /\ calls r = [introPrompt state]
  /\ chunks r
     = [("introduction_node",
         {| Upd.operation := Some "introduction";
            Upd.messages := Some [reply];
            Upd.currentStep := Some "introduction_complete";
            Upd.eventName := None;
            Upd.eventDate := None;
            Upd.nftTicketObject := None |})]
  /\ thrown r = None
  /\ api_agent JSON_parse llm now (Some "hello") parsedChatHistory = EventStream [EndEvent].
Proof.
  intros llm state r.
  split; [reflexivity |]. split; [reflexivity |]. split; [reflexivity |].
  split; [reflexivity |].
  change (EventStream (relay JSON_parse (chunks r) (thrown r)) = EventStream [EndEvent]).
  f_equal. exact (relay_graph_stream JSON_parse llm now state).
Qed.

(** C3, evaluated on a run whose ticket-creation message embeds a
    payload between [[OBJ]] and [[/OBJ]] (the event name comes from the
    model's reply): the last chunk is the update of the ticket-creation
    node, its first message matches the payload pattern, and the handler
    sends no [wager] event and no diagnostic for it; the stream is the
    [end] event alone. *)
Theorem ticket_payload_not_relayed {J : Type} (JSON_parse : string -> option J)
    (now : string) :
  let llm := fun _ : Prompt => Ok "EXTRACTION_COMPLETE: [OBJ]{}[/OBJ] | 25/12/2025" in
  let r := graph_stream llm now (initialState "create event" []) in
  (chunks r).*1 = ["introduction_node"; "event_extraction_node"; "nft_creation_node"]
  /\ (exists u m, last (chunks r) = Some ("nft_creation_node", u)
        /\ first_message u = Some m /\ match_OBJ m = Some "{}")
  /\ relay JSON_parse (chunks r) (thrown r) = [EndEvent]
  /\ api_agent JSON_parse llm now (Some "create event") [] = EventStream [EndEvent].
Proof.
  intros llm r. split; [reflexivity |]. split; [| split; reflexivity].
  eexists _, _. split; [reflexivity |]. split; [reflexivity |].
  vm_compute. reflexivity.
Qed.

(** * Further properties of the graph and of the handler *)

(** ** One step of the execution, by what the node returns *)

Lemma run_from_throw
    (llm : Prompt -> Result string) (now : string)
    (steps : nat) (n : Node) (state : AdapticState) (cs : list Prompt) (e : Failure) :
  node_fn llm now n state = (cs, Throw e) ->
  run_from llm now (S steps) n state
  = {| chunks := []; calls := cs; final := state; thrown := Some e |}.
Proof. intros Hn. rewrite run_from_step. by rewrite Hn. Qed.

Lemma run_from_end
    (llm : Prompt -> Result string) (now : string)
    (steps : nat) (n : Node) (state : AdapticState) (cs : list Prompt) (u : Upd.t) :
  node_fn llm now n state = (cs, Ok u) ->
  edges n (apply_update state u) = END ->
  run_from llm now (S steps) n state
  = {| chunks := [(node_name n, u)]; calls := cs;
       final := apply_update state u; thrown := None |}.
Proof. intros Hn He. rewrite run_from_step. rewrite Hn. cbv zeta. by rewrite He. Qed.

Lemma run_from_goto
    (llm : Prompt -> Result string) (now : string)
    (steps : nat) (n n' : Node) (state : AdapticState) (cs : list Prompt) (u : Upd.t) :
  node_fn llm now n state = (cs, Ok u) ->
  edges n (apply_update state u) = Goto n' ->
  run_from llm now (S steps) n state
  = let r := run_from llm now steps n' (apply_update state u) in
    {| chunks := (node_name n, u) :: chunks r;
       calls := cs ++ calls r;
       final := final r;
       thrown := thrown r |}.
Proof. intros Hn He. rewrite run_from_step. rewrite Hn. cbv zeta. by rewrite He. Qed.

(** ** What each node does with the model *)

Lemma introduction_node_keyword
    (llm : Prompt -> Result string) (state : AdapticState) :
  isEventCreation (JS.toLowerCase (input state)) = true ->
  introduction_node llm state
  = ([], Ok {| Upd.operation := Some "event_creation";
               Upd.currentStep := Some "event_extraction";
               Upd.messages := Some [];
               Upd.eventName := None;
               Upd.eventDate := None;
               Upd.nftTicketObject := None |}).
Proof. intros Hkw. unfold introduction_node. by rewrite Hkw. Qed.

Lemma introduction_node_answers
    (llm : Prompt -> Result string) (state : AdapticState) (reply : string) :
  isEventCreation (JS.toLowerCase (input state)) = false ->
  llm (introPrompt state) = Ok reply ->
  introduction_node llm state
  = ([introPrompt state],
     Ok {| Upd.operation := Some "introduction";
           Upd.messages := Some [reply];
           Upd.currentStep := Some "introduction_complete";
           Upd.eventName := None;
           Upd.eventDate := None;
           Upd.nftTicketObject := None |}).
Proof.
  intros Hkw Hllm. unfold introduction_node, mbind, Eff_bind, bind, invoke.
  by rewrite Hkw, Hllm.
Qed.

Lemma introduction_node_throws
    (llm : Prompt -> Result string) (state : AdapticState) (e : Failure) :
  isEventCreation (JS.toLowerCase (input state)) = false ->
  llm (introPrompt state) = Throw e ->
  introduction_node llm state = ([introPrompt state], Throw e).
Proof.
  intros Hkw Hllm. unfold introduction_node, mbind, Eff_bind, bind, invoke.
  by rewrite Hkw, Hllm.
Qed.

Lemma event_extraction_node_throws
    (llm : Prompt -> Result string) (state : AdapticState) (e : Failure) :
  llm (extractionPrompt state) = Throw e ->
  event_extraction_node llm state = ([extractionPrompt state], Throw e).
Proof.
  intros Hllm. unfold event_extraction_node, mbind, Eff_bind, bind, invoke.
  by rewrite Hllm.
Qed.

(** The extraction node either throws what the model throws, or returns
    an update whose step decides the edge. *)
Lemma event_extraction_node_cases
    (llm : Prompt -> Result string) (state : AdapticState) :
  (exists e, llm (extractionPrompt state) = Throw e
     /\ event_extraction_node llm state = ([extractionPrompt state], Throw e))
  \/ (exists reply u, llm (extractionPrompt state) = Ok reply
        /\ event_extraction_node llm state = ([extractionPrompt state], Ok u)
        /\ Upd.nftTicketObject u = None
        /\ Upd.operation u = Some "event_creation"
        /\ ((Upd.currentStep u = Some "nft_creation"
             /\ JS.startsWith reply "EXTRACTION_COMPLETE:" = true)
            \/ (Upd.currentStep u = Some "event_extraction"
                /\ JS.startsWith reply "EXTRACTION_COMPLETE:" = false
                /\ Upd.messages u = Some [reply]
                /\ Upd.eventName u = None /\ Upd.eventDate u = None))).
Proof.
  destruct (llm (extractionPrompt state)) as [reply|e] eqn:Hllm.
  - right. exists reply.
    destruct (JS.startsWith reply "EXTRACTION_COMPLETE:") eqn:Hs.
    + eexists. split; [reflexivity |].
      split; [by apply event_extraction_node_complete |].
      split; [reflexivity |]. split; [reflexivity |]. left. split; reflexivity.
    + eexists. split; [reflexivity |].
      split; [by apply event_extraction_node_incomplete |].
      split; [reflexivity |]. split; [reflexivity |]. right. repeat split.
  - left. exists e. split; [reflexivity |]. by apply event_extraction_node_throws.
Qed.

Lemma edges_after_extraction (state : AdapticState) (u : Upd.t) :
  edges EventExtractionNode (apply_update state u)
  = if equals (last_value (currentStep state) (Upd.currentStep u)) "nft_creation"
    then Goto NftCreationNode else END.
Proof. reflexivity. Qed.

(** ** The five shapes of a run *)

(** A run, from whatever state, has one of five shapes: the
    introduction answers or throws; or the input asks for an event and
    the extraction throws, asks back, or completes and the ticket is
    created. *)
Lemma graph_stream_shapes
    (llm : Prompt -> Result string) (now : string) (state : AdapticState) :
  let r := graph_stream llm now state in
  (isEventCreation (JS.toLowerCase (input state)) = false
   /\ ((exists e, llm (introPrompt state) = Throw e
          /\ r = {| chunks := []; calls := [introPrompt state];
                    final := state; thrown := Some e |})
       \/ (exists reply u, llm (introPrompt state) = Ok reply
             /\ Upd.messages u = Some [reply]
             /\ Upd.operation u = Some "introduction"
             /\ Upd.currentStep u = Some "introduction_complete"
             /\ Upd.nftTicketObject u = None
             /\ r = {| chunks := [("introduction_node", u)]; calls := [introPrompt state];
                       final := apply_update state u; thrown := None |})))
  \/ (isEventCreation (JS.toLowerCase (input state)) = true
      /\ exists u1 s1,
           introduction_node llm state = ([], Ok u1)
           /\ s1 = apply_update state u1
           /\ Upd.messages u1 = Some []
           /\ Upd.nftTicketObject u1 = None
           /\ ((exists e, llm (extractionPrompt s1) = Throw e
                  /\ r = {| chunks := [("introduction_node", u1)];
                            calls := [extractionPrompt s1];
                            final := s1; thrown := Some e |})
               \/ (exists reply u2, llm (extractionPrompt s1) = Ok reply
                     /\ JS.startsWith reply "EXTRACTION_COMPLETE:" = false
                     /\ event_extraction_node llm s1 = ([extractionPrompt s1], Ok u2)
                     /\ Upd.currentStep u2 = Some "event_extraction"
                     /\ Upd.operation u2 = Some "event_creation"
                     /\ Upd.nftTicketObject u2 = None
                     /\ r = {| chunks := [("introduction_node", u1);
                                          ("event_extraction_node", u2)];
                               calls := [extractionPrompt s1];
                               final := apply_update s1 u2; thrown := None |})
               \/ (exists reply u2 u3, llm (extractionPrompt s1) = Ok reply
                     /\ JS.startsWith reply "EXTRACTION_COMPLETE:" = true
                     /\ event_extraction_node llm s1 = ([extractionPrompt s1], Ok u2)
                     /\ nft_creation_node now (apply_update s1 u2) = ([], Ok u3)
                     /\ r = {| chunks := [("introduction_node", u1);
                                          ("event_extraction_node", u2);
                                          ("nft_creation_node", u3)];
                               calls := [extractionPrompt s1];
                               final := apply_update (apply_update s1 u2) u3;
                               thrown := None |}))).
Proof.
  intros r. subst r. unfold graph_stream, START. change recursionLimit with 100.
  destruct (isEventCreation (JS.toLowerCase (input state))) eqn:Hkw.
  - right. split; [reflexivity |].
    pose proof (introduction_node_keyword llm state Hkw) as Hi.
    eexists _, _. split; [exact Hi |]. split; [reflexivity |].
    split; [reflexivity |]. split; [reflexivity |].
    rewrite (run_from_goto llm now 99 IntroductionNode EventExtractionNode state _ _ Hi eq_refl).
    cbv zeta.
    set (s1 := apply_update state _).
    destruct (event_extraction_node_cases llm s1)
      as [(e & Hllm & He) | (reply & u2 & Hllm & He & Ht & Hop & Hcase)].
    + left. exists e. split; [exact Hllm |].
      by rewrite (run_from_throw llm now 98 EventExtractionNode s1 _ e He).
    + right. destruct Hcase as [[Hstep Hs] | (Hstep & Hs & _)].
      * right. eexists reply, u2, _. split; [exact Hllm |]. split; [exact Hs |].
        split; [exact He |]. split; [reflexivity |].
        rewrite (run_from_goto llm now 98 EventExtractionNode NftCreationNode s1 _ u2 He).
        -- cbv zeta.
           by rewrite (run_from_end llm now 97 NftCreationNode (apply_update s1 u2) []
                         _ eq_refl eq_refl).
        -- rewrite edges_after_extraction, Hstep. reflexivity.
      * left. exists reply, u2. split; [exact Hllm |]. split; [exact Hs |].
        split; [exact He |]. split; [exact Hstep |]. split; [exact Hop |].
        split; [exact Ht |].
        rewrite (run_from_end llm now 98 EventExtractionNode s1 _ u2 He); [reflexivity |].
        rewrite edges_after_extraction, Hstep. reflexivity.
  - left. split; [reflexivity |].
    destruct (llm (introPrompt state)) as [reply|e] eqn:Hllm.
    + right.
      rewrite (run_from_end llm now 99 IntroductionNode state _ _
                 (introduction_node_answers llm state reply Hkw Hllm) eq_refl).
      exists reply,
        {| Upd.operation := Some "introduction";
           Upd.messages := Some [reply];
           Upd.currentStep := Some "introduction_complete";
           Upd.eventName := None;
           Upd.eventDate := None;
           Upd.nftTicketObject := None |}.
      split; [reflexivity |].
      split; [reflexivity |]. split; [reflexivity |]. split; [reflexivity |].
      split; reflexivity.
    + left. exists e. split; [reflexivity |].
      by rewrite (run_from_throw llm now 99 IntroductionNode state _ e
                    (introduction_node_throws llm state e Hkw Hllm)).
Qed.

(** X1: every run makes exactly one call of the model, whatever the
    input and the state; it throws exactly when that call throws, and
    then throws the same error, so the recursion limit is never what
    ends a run; and it executes at most three nodes. *)
Theorem run_calls_model_once
    (llm : Prompt -> Result string) (now : string) (state : AdapticState) :
  let r := graph_stream llm now state in
  (exists p, calls r = [p]
     /\ match thrown r with
        | Some e => llm p = Throw e
        | None => exists reply, llm p = Ok reply
        end)
  /\ length (chunks r) <= 3.
Proof.
  pose proof (graph_stream_shapes llm now state) as H. cbv zeta in *.
  destruct H as [(_ & [(e & Hllm & ->) | (reply & u & Hllm & _ & _ & _ & _ & ->)])
                | (_ & u1 & s1 & _ & _ & _ & _ & [(e & Hllm & ->)
                    | [(reply & u2 & Hllm & _ & _ & _ & _ & _ & ->)
                      | (reply & u2 & u3 & Hllm & _ & _ & _ & ->)]])];
    cbn [calls thrown chunks length]; (split; [eexists; split; [reflexivity |]; eauto | lia]).
Qed.

Lemma final_fields (state : AdapticState) (u : Upd.t) :
  currentStep (apply_update state u) = last_value (currentStep state) (Upd.currentStep u)
  /\ operation (apply_update state u) = last_value (operation state) (Upd.operation u)
  /\ nftTicketObject (apply_update state u)
     = last_value (nftTicketObject state) (Upd.nftTicketObject u).
Proof. repeat split. Qed.

(** X2: a run that does not throw ends in one of three ways, told apart
    by the step it leaves in the state: after the introduction alone
    ([introduction_complete], when the input holds no intent keyword),
    after the extraction asked back ([event_extraction]), or after the
    ticket was created ([completed]); only the last one sets a ticket,
    the two others leave the ticket of the state untouched. *)
Theorem run_outcomes
    (llm : Prompt -> Result string) (now : string) (state : AdapticState) :
  let r := graph_stream llm now state in
  thrown r = None ->
  ((chunks r).*1 = ["introduction_node"]
   /\ isEventCreation (JS.toLowerCase (input state)) = false
   /\ currentStep (final r) = Some "introduction_complete"
   /\ operation (final r) = Some "introduction"
   /\ nftTicketObject (final r) = nftTicketObject state)
  \/ ((chunks r).*1 = ["introduction_node"; "event_extraction_node"]
      /\ isEventCreation (JS.toLowerCase (input state)) = true
      /\ currentStep (final r) = Some "event_extraction"
      /\ operation (final r) = Some "event_creation"
      /\ nftTicketObject (final r) = nftTicketObject state)
  \/ ((chunks r).*1 = ["introduction_node"; "event_extraction_node"; "nft_creation_node"]
      /\ isEventCreation (JS.toLowerCase (input state)) = true
      /\ currentStep (final r) = Some "completed"
      /\ operation (final r) = Some "event_creation"
      /\ is_Some (nftTicketObject (final r))).
Proof.
  pose proof (graph_stream_shapes llm now state) as H. cbv zeta in *.
  destruct H as [(Hkw & [(e & Hllm & ->) | (reply & u & Hllm & _ & Hop & Hstep & Ht & ->)])
                | (Hkw & u1 & s1 & Hi & -> & _ & Ht1 & [(e & Hllm & ->)
                    | [(reply & u2 & Hllm & _ & _ & Hstep & Hop & Ht & ->)
                      | (reply & u2 & u3 & Hllm & _ & _ & Hn & ->)]])];
    cbn [thrown chunks final fmap list_fmap fst]; intros Hthrown; try discriminate.
  - left. destruct (final_fields state u) as (-> & -> & ->).
    rewrite Hop, Hstep, Ht. by destruct (nftTicketObject state).
  - right. left.
    destruct (final_fields (apply_update state u1) u2) as (-> & -> & ->).
    destruct (final_fields state u1) as (_ & _ & ->).
    rewrite Hop, Hstep, Ht, Ht1. by destruct (nftTicketObject state).
  - right. right. injection Hn as <-.
    split; [reflexivity |]. split; [exact Hkw |].
    split; [reflexivity |]. split; [reflexivity |]. cbn. eauto.
Qed.

Lemma run_outcomes_witness :
  let llm := fun _ : Prompt => Ok "What is the date of your event?" in
  let r := graph_stream llm "2026-01-01T00:00:00.000Z" (initialState "create event" []) in
  thrown r = None
  /\ currentStep (final r) = Some "event_extraction"
  /\ nftTicketObject (final r) = None.
Proof.
  intros llm r. split; [reflexivity |].
  destruct (run_outcomes llm "2026-01-01T00:00:00.000Z" (initialState "create event" [])
              eq_refl)
    as [(_ & Hkw & _) | [(_ & _ & Hs & _ & Ht) | (Hc & _)]].
  - discriminate Hkw.
  - split; [exact Hs | exact Ht].
  - discriminate Hc.
Defined.

(** ** The intent keywords *)

Lemma toLowerCase_append (a b : string) :
  JS.toLowerCase (a +:+ b) = JS.toLowerCase a +:+ JS.toLowerCase b.
Proof. induction a as [|c a IH]; simpl; [reflexivity | by rewrite IH]. Qed.

Lemma includes_here (s p : string) : JS.startsWith s p = true -> JS.includes s p = true.
Proof. intros H. destruct s; cbn [JS.includes]; by rewrite H. Qed.

Lemma includes_append (a b p : string) : JS.includes (a +:+ p +:+ b) p = true.
Proof.
  induction a as [|c a IH].
  - change (JS.includes (p +:+ b) p = true).
    apply includes_here, startsWith_append.
  - change (String c a +:+ p +:+ b) with (String c (a +:+ p +:+ b)).
    cbn [JS.includes]. rewrite IH. apply orb_true_r.
Qed.

(** X4: the keyword test is a substring test that ignores case: when
    the input holds, anywhere and in any mix of upper and lower case, one
    of [create], [event], [ticket], [nft], [deploy], [contract], the
    introduction node calls no model, emits no message and hands over to
    the extraction node. *)
Theorem keyword_in_any_case_skips_model
    (llm : Prompt -> Result string) (state : AdapticState)
    (before word after keyword : string) :
  keyword ∈ intent_keywords ->
  JS.toLowerCase word = keyword ->
  input state = before +:+ word +:+ after ->
  exists u,
    introduction_node llm state = ([], Ok u)
    /\ Upd.messages u = Some []
    /\ operation (apply_update state u) = Some "event_creation"
    /\ edges IntroductionNode (apply_update state u) = Goto EventExtractionNode.
Proof.
  intros Hk Hw Hin.
  assert (Hkw : isEventCreation (JS.toLowerCase (input state)) = true).
  { unfold isEventCreation. apply existsb_exists. exists keyword.
    split; [by apply list_elem_of_In |].
    rewrite Hin, !toLowerCase_append, Hw. apply includes_append. }
  eexists. split; [by apply introduction_node_keyword |].
  repeat split.
Qed.

Lemma keyword_in_any_case_skips_model_witness :
  exists u,
    introduction_node (fun _ => Throw {| message := None |})
      (initialState "Please DePloY my Contract" []) = ([], Ok u)
    /\ Upd.messages u = Some [].
Proof.
  destruct (keyword_in_any_case_skips_model (fun _ => Throw {| message := None |})
              (initialState "Please DePloY my Contract" [])
              "Please " "DePloY" " my Contract" "deploy")
    as (u & Hu & Hm & _).
  - apply list_elem_of_In. simpl. tauto.
  - reflexivity.
  - reflexivity.
  - exists u. split; [exact Hu | exact Hm].
Defined.

(** ** The extraction node asking back *)

(** X5: when the reply does not start with [EXTRACTION_COMPLETE:] (the
    test is exact: a leading blank or a lower-case marker does not
    count), the extraction node hands the reply on verbatim as its only
    message, leaves event name, event date and ticket as they were,
    stays in the step [event_extraction], and the run ends there. *)
Theorem extraction_incomplete_awaits
    (llm : Prompt -> Result string) (state : AdapticState) (reply : string) :
  llm (extractionPrompt state) = Ok reply ->
  JS.startsWith reply "EXTRACTION_COMPLETE:" = false ->
  exists u,
    event_extraction_node llm state = ([extractionPrompt state], Ok u)
    /\ Upd.messages u = Some [reply]
    /\ messages (apply_update state u) = messages state ++ [reply]
    /\ eventName (apply_update state u) = eventName state
    /\ eventDate (apply_update state u) = eventDate state
    /\ nftTicketObject (apply_update state u) = nftTicketObject state
    /\ currentStep (apply_update state u) = Some "event_extraction"
    /\ edges EventExtractionNode (apply_update state u) = END.
Proof.
  intros Hllm Hs. eexists.
  split; [by apply event_extraction_node_incomplete |].
  repeat split.
Qed.

Lemma extraction_incomplete_awaits_witness :
  let state := initialState "create event" [] in
  exists u,
    event_extraction_node (fun _ => Ok " EXTRACTION_COMPLETE: Expo | 01/02/2026") state
    = ([extractionPrompt state], Ok u)
    /\ Upd.messages u = Some [" EXTRACTION_COMPLETE: Expo | 01/02/2026"]
    /\ eventName (apply_update state u) = None.
Proof.
  intros state.
  destruct (extraction_incomplete_awaits
              (fun _ => Ok " EXTRACTION_COMPLETE: Expo | 01/02/2026") state
              " EXTRACTION_COMPLETE: Expo | 01/02/2026" eq_refl eq_refl)
    as (u & Hu & Hm & _ & Hn & _).
  exists u. split; [exact Hu |]. split; [exact Hm | exact Hn].
Defined.

(** ** The ticket *)

Lemma or_else_nonempty (a : option string) (b : string) :
  b <> EmptyString -> JS.or_else a b <> EmptyString.
Proof. intros Hb. destruct a as [[|c v]|]; simpl; done. Qed.

Lemma or_else_value (a : option string) (b v : string) :
  a = Some v -> v <> EmptyString -> JS.or_else a b = v.
Proof. intros -> Hv. by destruct v. Qed.

Lemma or_else_default (a : option string) (b : string) :
  a = None \/ a = Some EmptyString -> JS.or_else a b = b.
Proof. by intros [-> | ->]. Qed.

(** X6: the ticket-creation node calls no model and never produces a
    ticket with a blank event name or date: a name or date that is set
    and not empty is taken over as it is, a missing or empty one is
    replaced by ["Unknown Event"], ["Unknown Date"] (and ["Event"],
    ["TBD"] in the description and the date attribute).  The one message
    of the node quotes the very name and date of the ticket, and the
    creation time of the ticket is the clock's. *)
Theorem ticket_never_blank (now : string) (state : AdapticState) :
  exists u t summary,
    nft_creation_node now state = ([], Ok u)
    /\ Upd.nftTicketObject u = Some t
    /\ Upd.messages u = Some [summary]
    /\ name (eventDetails t) <> EmptyString
    /\ date (eventDetails t) <> EmptyString
    /\ (forall n, eventName state = Some n -> n <> EmptyString ->
        name (eventDetails t) = n /\ description (metadata t) = "NFT Ticket for " +:+ n)
    /\ (eventName state = None \/ eventName state = Some EmptyString ->
        name (eventDetails t) = "Unknown Event"
        /\ description (metadata t) = "NFT Ticket for Event")
    /\ (forall d, eventDate state = Some d -> d <> EmptyString ->
        date (eventDetails t) = d
        /\ value <$> attributes (metadata t) !! 1 = Some d)
    /\ (eventDate state = None \/ eventDate state = Some EmptyString ->
        date (eventDetails t) = "Unknown Date"
        /\ value <$> attributes (metadata t) !! 1 = Some "TBD")
    /\ JS.includes summary
         ("**Event:** " +:+ name (eventDetails t) +:+ nl
          +:+ "**Date:** " +:+ date (eventDetails t) +:+ nl) = true
    /\ createdAt t = now.
Proof.
  eexists _, _, _. split; [reflexivity |]. split; [reflexivity |].
  split; [reflexivity |]. cbn [eventDetails name date metadata description attributes createdAt].
  split; [by apply or_else_nonempty |]. split; [by apply or_else_nonempty |].
  split; [| split; [| split; [| split; [| split]]]].
  - intros n Hn Hne. by rewrite !(or_else_value _ _ n Hn Hne).
  - intros H. by rewrite !(or_else_default _ _ H).
  - intros d Hd Hne. cbn. by rewrite !(or_else_value _ _ d Hd Hne).
  - intros H. cbn. by rewrite !(or_else_default _ _ H).
  - match goal with
    | |- JS.includes (?a +:+ nl +:+ nl +:+ ?rest) ?p = true =>
        replace (a +:+ nl +:+ nl +:+ rest)
          with ((a +:+ nl +:+ nl) +:+ p
                +:+ "**Ticket Price:** " +:+ "0.1" +:+ " MASSA" +:+ nl
                +:+ "**Max Supply:** " +:+ "100" +:+ " tickets" +:+ nl +:+ nl
                +:+ "You can now deploy this NFT ticketing contract to the Massa blockchain! The contract will allow users to mint tickets as NFTs for your event.")
    end.
    + apply includes_append.
    + rewrite !append_assoc. reflexivity.
  - reflexivity.
Qed.

Lemma ticket_never_blank_witness :
  let state := {| input := "create event"; chat_history := []; messages := [];
                  operation := Some "event_creation"; currentStep := Some "nft_creation";
                  eventName := Some "Expo"; eventDate := Some EmptyString;
                  nftTicketObject := None |} in
  exists u t,
    nft_creation_node "2026-01-01T00:00:00.000Z" state = ([], Ok u)
    /\ Upd.nftTicketObject u = Some t
    /\ name (eventDetails t) = "Expo"
    /\ date (eventDetails t) = "Unknown Date".
Proof.
  intros state.
  destruct (ticket_never_blank "2026-01-01T00:00:00.000Z" state)
    as (u & t & summary & Hu & Ht & _ & _ & _ & Hn & _ & _ & Hd & _).
  exists u, t. split; [exact Hu |]. split; [exact Ht |].
  split.
  - apply (Hn "Expo" eq_refl). discriminate.
  - apply Hd. right. reflexivity.
Defined.

(** The introduction node leaves the extraction prompt as it is. *)
Lemma extractionPrompt_after_keyword (state : AdapticState) :
  extractionPrompt
    (apply_update state
       {| Upd.operation := Some "event_creation";
          Upd.currentStep := Some "event_extraction";
          Upd.messages := Some [];
          Upd.eventName := None;
          Upd.eventDate := None;
          Upd.nftTicketObject := None |})
  = extractionPrompt state.
Proof. reflexivity. Qed.

(** X7: a whole run that creates a ticket.  When the input holds an
    intent keyword and the model answers with the marker followed by a
    name and a date separated by [|] (both non-blank), the run executes
    the three nodes in order with that single model call, does not
    throw, and ends with the trimmed name and date in the state and in
    the ticket, with the summary as the one new message. *)
Theorem ticket_run
    (llm : Prompt -> Result string) (now : string) (state : AdapticState)
    (first second : string) (others : list string) :
  isEventCreation (JS.toLowerCase (input state)) = true ->
  occurs "|" first = false ->
  Forall (fun f => occurs "|" f = false) (second :: others) ->
  JS.trim first <> EmptyString -> JS.trim second <> EmptyString ->
  llm (extractionPrompt state)
  = Ok ("EXTRACTION_COMPLETE:" +:+ join (first :: second :: others) "|") ->
  let r := graph_stream llm now state in
  thrown r = None
  /\ calls r = [extractionPrompt state]
  /\ (chunks r).*1 = ["introduction_node"; "event_extraction_node"; "nft_creation_node"]
  /\ eventName (final r) = Some (JS.trim first)
  /\ eventDate (final r) = Some (JS.trim second)
  /\ currentStep (final r) = Some "completed"
  /\ exists t summary,
       nftTicketObject (final r) = Some t
       /\ name (eventDetails t) = JS.trim first
       /\ date (eventDetails t) = JS.trim second
       /\ createdAt t = now
       /\ messages (final r) = messages state ++ [summary].
Proof.
  intros Hkw Hf Ho Hn Hd Hllm r. subst r.
  unfold graph_stream, START. change recursionLimit with 100.
  rewrite (run_from_goto llm now 99 IntroductionNode EventExtractionNode state _ _
             (introduction_node_keyword llm state Hkw) eq_refl).
  cbv zeta. set (s1 := apply_update state _).
  assert (Hllm1 : llm (extractionPrompt s1)
                  = Ok ("EXTRACTION_COMPLETE:" +:+ join (first :: second :: others) "|")).
  { unfold s1. by rewrite extractionPrompt_after_keyword. }
  pose proof (event_extraction_node_complete llm s1 _ Hllm1 (startsWith_append _ _)) as He.
  cbv zeta in He. rewrite replace_prefix in He.
  rewrite (split_join first (second :: others) "|" Hf Ho) in He.
  cbn [fmap list_fmap lookup list_lookup] in He.
  rewrite (run_from_goto llm now 98 EventExtractionNode NftCreationNode s1 _ _ He eq_refl).
  cbv zeta. set (s2 := apply_update s1 _).
  rewrite (run_from_end llm now 97 NftCreationNode s2 [] _ eq_refl eq_refl).
  cbn [thrown calls chunks final fmap list_fmap fst].
  split; [reflexivity |]. split.
  { unfold s1. by rewrite extractionPrompt_after_keyword. }
  split; [reflexivity |]. split; [reflexivity |]. split; [reflexivity |].
  split; [reflexivity |].
  eexists _, _. split; [reflexivity |].
  cbn [eventDetails name date createdAt].
  split; [by apply (or_else_value _ _ (JS.trim first)) |].
  split; [by apply (or_else_value _ _ (JS.trim second)) |].
  split; [reflexivity |].
  unfold s2, s1. cbn [messages apply_update Upd.messages].
  unfold concat_messages. cbn [default]. by rewrite !app_nil_r.
Qed.

Lemma ticket_run_witness :
  let llm := fun _ : Prompt => Ok "EXTRACTION_COMPLETE: Expo | 01/02/2026" in
  let r := graph_stream llm "2026-01-01T00:00:00.000Z"
             (initialState "Create a ticket" []) in
  thrown r = None
  /\ eventName (final r) = Some "Expo"
  /\ eventDate (final r) = Some "01/02/2026".
Proof.
  intros llm r.
  destruct (ticket_run llm "2026-01-01T00:00:00.000Z" (initialState "Create a ticket" [])
              " Expo " " 01/02/2026" [])
    as (Ht & _ & _ & Hn & Hd & _).
  - reflexivity.
  - reflexivity.
  - repeat constructor.
  - discriminate.
  - discriminate.
  - reflexivity.
  - split; [exact Ht |]. split; [exact Hn | exact Hd].
Defined.

(** ** The handler *)

Section Handler.

Context {J : Type}.
Variable JSON_parse : string -> option J.


Variable parse_history : string -> HistoryJSON.


Lemma on_entry_loading (fl : Flags) (nodeName : string) (u : Upd.t) :
  List.filter is_loading (on_entry JSON_parse fl nodeName u).2
  = (if String.eqb nodeName "initial_node" && negb (hasSentLoadingIndicator fl)
     then [Event "loading" "Processing your request..." None] else [])
  /\ hasSentLoadingIndicator (on_entry JSON_parse fl nodeName u).1
     = hasSentLoadingIndicator fl || String.eqb nodeName "initial_node".
Proof.
  unfold on_entry.
  destruct (String.eqb nodeName "initial_node") eqn:E;
    destruct (hasSentLoadingIndicator fl) eqn:El;
    destruct (first_message u) as [m|];
    try destruct (match_OBJ m);
    try destruct (String.eqb nodeName "wager_validation_node");
    try destruct (JSON_parse _);
    try destruct (String.eqb nodeName "wager_info_extraction_node"
                  || String.eqb nodeName "event_details_extraction_node");
    cbn; rewrite ?El; done.
Qed.

Lemma consume_loading (fl : Flags) (cs : list (string * Upd.t)) :
  List.filter is_loading (consume JSON_parse fl cs).2
  = (if negb (hasSentLoadingIndicator fl)
        && existsb (fun c => String.eqb c.1 "initial_node") cs
     then [Event "loading" "Processing your request..." None] else [])
  /\ hasSentLoadingIndicator (consume JSON_parse fl cs).1
     = hasSentLoadingIndicator fl || existsb (fun c => String.eqb c.1 "initial_node") cs.
Proof.
  revert fl. induction cs as [|[nodeName u] cs IH]; intros fl.
  - simpl. rewrite andb_false_r, orb_false_r. done.
  - cbn [consume existsb fst].
    destruct (on_entry_loading fl nodeName u) as [Hl Hf].
    destruct (on_entry JSON_parse fl nodeName u) as [fl' evs].
    destruct (IH fl') as [IHl IHf].
    destruct (consume JSON_parse fl' cs) as [fl'' evs'].
    cbn [fst snd] in *. rewrite List.filter_app, Hl, IHl, IHf, Hf.
    destruct (hasSentLoadingIndicator fl), (String.eqb nodeName "initial_node"),
      (existsb _ cs); done.
Qed.

(** X9: the loading notice is sent at most once per stream, however
    many entries there are and whatever they carry: exactly once when
    some entry is under the name [initial_node], and never otherwise. *)
Theorem loading_sent_at_most_once
    (cs : list (string * Upd.t)) (thrown : option Failure) :
  List.filter is_loading (relay JSON_parse cs thrown)
  = if existsb (fun c => String.eqb c.1 "initial_node") cs
    then [Event "loading" "Processing your request..." None] else [].
Proof.
  unfold relay.
  destruct (consume_loading
              {| hasSentLoadingIndicator := false; initialNodeComplete := false |} cs)
    as [Hl _].
  destruct (consume JSON_parse _ cs) as [fl evs]. cbn [snd] in Hl.
  destruct thrown as [e|]; rewrite List.filter_app, Hl.
  - unfold on_error. destruct (initialNodeComplete fl); cbn; by rewrite app_nil_r.
  - cbn. by rewrite app_nil_r.
Qed.

End Handler.

(** ** History conversion, continued *)

Lemma convertPair_warnings (p : string * string) :
  (convertPair p).2
  = if recognised p.1 then []
    else ["Unknown role " +:+ dq +:+ p.1 +:+ dq
          +:+ " in chat history. Treating as human message."].
Proof.
  destruct p as [role content]. unfold convertPair, recognised. cbn [fst].
  destruct (String.eqb (JS.toLowerCase role) "human"); [reflexivity |].
  by destruct (String.eqb (JS.toLowerCase role) "assistant"),
       (String.eqb (JS.toLowerCase role) "ai").
Qed.

(** X11: converting a history piece by piece gives the same messages and
    the same warnings as converting it at once; one warning is logged
    per pair with an unknown role label, and none is logged exactly when
    every label is one of [human], [assistant], [ai] in some mix of
    case. *)
Theorem convert_pieces_and_warnings (l1 l2 : list (string * string)) :
  convertChatHistoryToMessages (l1 ++ l2)
  = ((convertChatHistoryToMessages l1).1 ++ (convertChatHistoryToMessages l2).1,
     (convertChatHistoryToMessages l1).2 ++ (convertChatHistoryToMessages l2).2)
  /\ length (convertChatHistoryToMessages l1).2
     = length (List.filter (fun p => negb (recognised p.1)) l1)
  /\ ((convertChatHistoryToMessages l1).2 = []
      <-> Forall (fun p => recognised p.1 = true) l1).
Proof.
  split; [| split].
  - induction l1 as [|p l1 IH].
    + simpl. by destruct (convertChatHistoryToMessages l2).
    + change ((p :: l1) ++ l2) with (p :: (l1 ++ l2)).
      rewrite !convertChatHistoryToMessages_cons, IH. cbn [fst snd].
      by rewrite app_assoc.
  - induction l1 as [|p l1 IH]; [reflexivity |].
    rewrite convertChatHistoryToMessages_cons. cbn [snd List.filter].
    rewrite length_app, IH, convertPair_warnings.
    by destruct (recognised p.1).
  - induction l1 as [|p l1 IH]; [by split |].
    rewrite convertChatHistoryToMessages_cons. cbn [snd].
    rewrite convertPair_warnings, Forall_cons.
    destruct (recognised p.1); cbn [app].
    + rewrite IH. tauto.
    + split; [discriminate | intros [[=] _]].
Qed.

(** ** The template helper, continued *)

Lemma span_word_shape (s w r : string) :
  span_word s = (w, r) -> s = w +:+ r.
Proof.
  revert w r. induction s as [|c s IH]; intros w r; simpl.
  - by intros [= <- <-].
  - destruct (JS.is_word c).
    + destruct (span_word s) as [w' r'] eqn:E. intros [= <- <-].
      simpl. f_equal. by apply IH.
    + by intros [= <- <-].
Qed.

(** A match is an opening brace, the captured name and a closing brace. *)
Lemma match_placeholder_shape (s key rest : string) :
  match_placeholder s = Some (key, rest) -> s = "{" +:+ key +:+ "}" +:+ rest.
Proof.
  destruct s as [|c t]; simpl; [discriminate |].
  destruct (Ascii.eqb_spec c "{") as [-> |]; [| discriminate].
  destruct (span_word t) as [w r] eqn:E. apply span_word_shape in E.
  destruct w as [|k ks]; [discriminate |].
  destruct r as [|c' r]; [discriminate |].
  destruct (Ascii.eqb_spec c' "}") as [-> |]; [| discriminate].
  intros [= <- <-]. by rewrite E.
Qed.

Lemma assoc_member (key : string) (members : list (string * string)) (text : string) :
  assoc key members = Some text -> In (key, text) members.
Proof.
  induction members as [|[k v] rest IH]; simpl; [discriminate |].
  destruct (String.eqb_spec k key) as [-> |].
  - intros [= ->]. by left.
  - intros H. right. by apply IH.
Qed.

Lemma includes_tail (c : ascii) (t p : string) :
  JS.includes (String c t) p = false -> JS.includes t p = false.
Proof. cbn [JS.includes]. by intros [_ H]%orb_false_iff. Qed.

Lemma includes_behind (a b p : string) :
  JS.includes (a +:+ b) p = false -> JS.includes b p = false.
Proof.
  induction a as [|c a IH]; [done |].
  change (String c a +:+ b) with (String c (a +:+ b)).
  intros H. by apply IH, (includes_tail c).
Qed.

(** X12: when the mapping holds no value to substitute (it is empty, or
    every value in it is the empty text) and the template names no
    member inherited from [Object.prototype] between braces, the
    template comes back unchanged, whatever other placeholders and
    braces it holds. *)
Theorem formatTemplate_without_values (template : string) (data : gmap string string) :
  (forall key v, data !! key = Some v -> v = EmptyString) ->
  forallb (fun m => negb (JS.includes template ("{" +:+ m.1 +:+ "}"))) Object_prototype
  = true ->
  formatTemplate template data = template.
Proof.
  intros Hdata Hproto. unfold formatTemplate.
  assert (Hfree : forall key text, assoc key Object_prototype = Some text ->
                    JS.includes template ("{" +:+ key +:+ "}") = false).
  { intros key text Hk. apply assoc_member in Hk.
    rewrite forallb_forall in Hproto. specialize (Hproto _ Hk).
    by apply negb_true_iff in Hproto. }
  clear Hproto.
  generalize (String.length template) as fuel. intros fuel. revert template Hfree.
  induction fuel as [|fuel IH]; intros s Hfree; [reflexivity |].
  destruct s as [|c t]; [reflexivity |]. cbn [replace_all].
  destruct (match_placeholder (String c t)) as [[key rest]|] eqn:E.
  - pose proof (match_placeholder_shape _ _ _ E) as Hs.
    assert (Hkeep : replacer data key = "{" +:+ key +:+ "}").
    { unfold replacer. destruct (data !! key) as [v|] eqn:Ek.
      - by rewrite (Hdata key v Ek).
      - destruct (assoc key Object_prototype) as [text|] eqn:Ea; [| reflexivity].
        specialize (Hfree key text Ea). rewrite Hs in Hfree.
        rewrite <- (append_assoc "{" key), <- (append_assoc ("{" +:+ key) "}") in Hfree.
        rewrite (includes_here _ _ (startsWith_append _ rest)) in Hfree.
        discriminate. }
    rewrite Hkeep, IH.
    + rewrite Hs. by rewrite !append_assoc.
    + intros k text Hk. specialize (Hfree k text Hk). rewrite Hs in Hfree.
      rewrite <- (append_assoc "{" key), <- (append_assoc ("{" +:+ key) "}") in Hfree.
      by apply includes_behind in Hfree.
  - rewrite IH; [reflexivity |].
    intros k text Hk. by apply (includes_tail c), (Hfree k text).
Qed.

Lemma formatTemplate_without_values_witness :
  formatTemplate "{a}} {{b} {c" {[ "a" := EmptyString ]} = "{a}} {{b} {c".
Proof.
  apply formatTemplate_without_values.
  - intros key v H. apply lookup_singleton_Some in H as [_ <-]. reflexivity.
  - reflexivity.
Defined.

(** ** The extraction prompt *)

(** X13: the system text of the extraction prompt is the template with
    its four placeholders filled in and nothing else changed: both
    occurrences of [{event_name}] by the event name of the state and
    both occurrences of [{event_date}] by its event date, each replaced
    by ["Missing"] when it is not set or empty.  The prior turns and the
    input go into the prompt as they are. *)
Theorem extractionPrompt_filled :
  exists p0 p1 p2 p3 p4 : string,
    EVENT_EXTRACTION_TEMPLATE
    = p0 +:+ "{event_name}" +:+ p1 +:+ "{event_date}" +:+ p2
      +:+ "{event_name}" +:+ p3 +:+ "{event_date}" +:+ p4
    /\ forallb (fun p => negb (has_placeholder p)) [p0; p1; p2; p3; p4] = true
    /\ forall state : AdapticState,
         let N := JS.or_else (eventName state) "Missing" in
         let D := JS.or_else (eventDate state) "Missing" in
         extractionPrompt state
         = {| system := p0 +:+ N +:+ p1 +:+ D +:+ p2 +:+ N +:+ p3 +:+ D +:+ p4;
              history := chat_history state;
              human := input state |}.
Proof.
  set (a := cut EVENT_EXTRACTION_TEMPLATE "{event_name}").
  set (b := cut a.2 "{event_date}").
  set (c := cut b.2 "{event_name}").
  set (d := cut c.2 "{event_date}").
  exists a.1, b.1, c.1, d.1, d.2.
  assert (Ht : EVENT_EXTRACTION_TEMPLATE
               = a.1 +:+ "{" +:+ "event_name" +:+ "}" +:+ b.1 +:+ "{" +:+ "event_date" +:+ "}"
                 +:+ c.1 +:+ "{" +:+ "event_name" +:+ "}" +:+ d.1
                 +:+ "{" +:+ "event_date" +:+ "}" +:+ d.2)
    by (vm_compute; reflexivity).
  assert (H0 : has_placeholder a.1 = false) by (vm_compute; reflexivity).
  assert (H1 : has_placeholder b.1 = false) by (vm_compute; reflexivity).
  assert (H2 : has_placeholder c.1 = false) by (vm_compute; reflexivity).
  assert (H3 : has_placeholder d.1 = false) by (vm_compute; reflexivity).
  assert (H4 : has_placeholder d.2 = false) by (vm_compute; reflexivity).
  split; [exact Ht |].
  split; [cbn [forallb]; by rewrite H0, H1, H2, H3, H4 |].
  clearbody a b c d.
  intros state N D. unfold extractionPrompt. cbv zeta. f_equal.
  fold N D. set (data := {[ "event_name" := N; "event_date" := D ]} : gmap string string).
  assert (HN : replacer data "event_name" = N).
  { apply replacer_value; [by simplify_map_eq | by apply or_else_nonempty]. }
  assert (HD : replacer data "event_date" = D).
  { apply replacer_value; [by simplify_map_eq | by apply or_else_nonempty]. }
  rewrite Ht.
  rewrite (formatTemplate_first data a.1 "event_name" _ H0 eq_refl), HN.
  rewrite (formatTemplate_first data b.1 "event_date" _ H1 eq_refl), HD.
  rewrite (formatTemplate_first data c.1 "event_name" _ H2 eq_refl), HN.
  rewrite (formatTemplate_first data d.1 "event_date" _ H3 eq_refl), HD.
  by rewrite (formatTemplate_no_placeholder data d.2 H4).
Qed.

(** ** The payload pattern *)

Lemma lazy_until_close_unfold (s : string) :
  lazy_until_close s
  = if JS.startsWith s "[/OBJ]" then Some EmptyString
    else match s with
         | EmptyString => None
         | String c t => if JS.is_dot c then String c <$> lazy_until_close t else None
         end.
Proof. by destruct s. Qed.

Lemma match_OBJ_unfold (s : string) :
  match_OBJ s
  = match (if JS.startsWith s "[OBJ]" then lazy_until_close (JS.drop 5 s) else None) with
    | Some g => Some g
    | None => match s with
              | EmptyString => None
              | String _ t => match_OBJ t
              end
    end.
Proof. by destruct s. Qed.

Lemma startsWith_other (c a : ascii) (t p : string) :
  Ascii.eqb c a = false -> JS.startsWith (String c t) (String a p) = false.
Proof. intros H. cbn [JS.startsWith]. by rewrite Ascii.eqb_sym, H. Qed.

Lemma lazy_until_close_payload (payload post : string) :
  occurs "[" payload = false -> one_line payload = true ->
  lazy_until_close (payload +:+ "[/OBJ]" +:+ post) = Some payload.
Proof.
  induction payload as [|c p IH].
  - intros _ _. rewrite lazy_until_close_unfold.
    change (EmptyString +:+ "[/OBJ]" +:+ post) with ("[/OBJ]" +:+ post).
    by rewrite startsWith_append.
  - cbn [occurs one_line]. intros [Hc Hp]%orb_false_iff [Hd Hl]%andb_true_iff.
    rewrite lazy_until_close_unfold.
    change (String c p +:+ "[/OBJ]" +:+ post) with (String c (p +:+ "[/OBJ]" +:+ post)).
    rewrite (startsWith_other c "[" _ _ Hc), Hd. by rewrite IH.
Qed.

Lemma match_OBJ_payload (before payload post : string) :
  occurs "[" before = false -> occurs "[" payload = false -> one_line payload = true ->
  match_OBJ (before +:+ "[OBJ]" +:+ payload +:+ "[/OBJ]" +:+ post) = Some payload.
Proof.
  intros Hb Hp Hl. induction before as [|c b IH].
  - rewrite match_OBJ_unfold.
    change (EmptyString +:+ "[OBJ]" +:+ payload +:+ "[/OBJ]" +:+ post)
      with ("[OBJ]" +:+ payload +:+ "[/OBJ]" +:+ post).
    rewrite startsWith_append.
    change (JS.drop 5 ("[OBJ]" +:+ payload +:+ "[/OBJ]" +:+ post))
      with (payload +:+ "[/OBJ]" +:+ post).
    by rewrite lazy_until_close_payload.
  - cbn [occurs] in Hb. apply orb_false_iff in Hb as [Hc Hb].
    rewrite match_OBJ_unfold.
    change (String c b +:+ "[OBJ]" +:+ payload +:+ "[/OBJ]" +:+ post)
      with (String c (b +:+ "[OBJ]" +:+ payload +:+ "[/OBJ]" +:+ post)).
    rewrite (startsWith_other c "[" _ _ Hc). by apply IH.
Qed.

Section Payload.

Context {J : Type}.
Variable JSON_parse : string -> option J.

(** X14: an entry under the name [wager_validation_node] whose first
    message holds a payload between [[OBJ]] and [[/OBJ]] on one line
    (no bracket before or inside the payload) is answered by exactly
    one event and leaves the flags alone: the [wager] event with the
    record parsed from the payload, or, when the payload does not parse,
    the diagnostic [message]; the text around the payload is not
    relayed. *)
Theorem payload_is_extracted
    (fl : Flags) (u : Upd.t) (before payload post : string) :
  occurs "[" before = false ->
  occurs "[" payload = false ->
  one_line payload = true ->
  first_message u = Some (before +:+ "[OBJ]" +:+ payload +:+ "[/OBJ]" +:+ post) ->
  on_entry JSON_parse fl "wager_validation_node" u
  = (fl, [match JSON_parse payload with
          | Some wagerObject => Event "wager" "Wager created successfully!" (Some wagerObject)
          | None => Event "message" "Error creating wager object" None
          end]).
Proof.
  intros Hb Hp Hl Hm.
  apply (on_entry_wager_validation JSON_parse fl u _ payload Hm).
  by apply match_OBJ_payload.
Qed.

End Payload.

Lemma payload_is_extracted_witness :
  let JSON_parse := fun s : string => if String.eqb s "{}" then Some s else None in
  let fl := {| hasSentLoadingIndicator := true; initialNodeComplete := true |} in
  let u := {| Upd.messages := Some ["Created: [OBJ]{}[/OBJ] done"; "more"];
              Upd.operation := None; Upd.currentStep := None; Upd.eventName := None;
              Upd.eventDate := None; Upd.nftTicketObject := None |} in
  on_entry JSON_parse fl "wager_validation_node" u
  = (fl, [Event "wager" "Wager created successfully!" (Some "{}")]).
Proof.
  intros JSON_parse fl u.
  apply (payload_is_extracted JSON_parse fl u "Created: " "{}" " done");
    reflexivity.
Defined.

(** ** What the model is asked, and a reply without a date *)

(** X15: on a fresh request the one model call of the run carries the
    converted history and the input as they came in; its system text
    is the introduction template when the input holds no intent
    keyword, and otherwise the extraction template with both fields
    reported as ["Missing"]. *)
Theorem prompt_of_fresh_run
    (llm : Prompt -> Result string) (now input0 : string) (history0 : list BaseMessage) :
  let r := graph_stream llm now (initialState input0 history0) in
  exists p,
    calls r = [p]
    /\ history p = history0
    /\ human p = input0
    /\ system p
       = if isEventCreation (JS.toLowerCase input0)
         then formatTemplate EVENT_EXTRACTION_TEMPLATE
                {[ "event_name" := "Missing"; "event_date" := "Missing" ]}
         else INTRODUCTION_TEMPLATE.
Proof.
  pose proof (graph_stream_shapes llm now (initialState input0 history0)) as H.
  cbv zeta in *. cbn [input initialState] in H.
  destruct H as [(Hkw & [(e & _ & ->) | (reply & u & _ & _ & _ & _ & _ & ->)])
                | (Hkw & u1 & s1 & Hi & -> & _ & _ & Hcases)].
  - eexists. split; [reflexivity |]. rewrite Hkw. repeat split.
  - eexists. split; [reflexivity |]. rewrite Hkw. repeat split.
  - rewrite (introduction_node_keyword llm (initialState input0 history0) Hkw) in Hi.
    injection Hi as <-. rewrite extractionPrompt_after_keyword in Hcases.
    exists (extractionPrompt (initialState input0 history0)).
    rewrite Hkw.
    split; [| repeat split].
    destruct Hcases as [(e & _ & ->) | [(reply & u2 & _ & _ & _ & _ & _ & _ & ->)
                                        | (reply & u2 & u3 & _ & _ & _ & _ & ->)]];
      reflexivity.
Qed.

(** X16: a reply with the marker and a name but no separator, on a
    request that has no date yet, still creates a ticket: the state
    keeps no date, and the ticket carries ["Unknown Date"] as its date
    and ["TBD"] as its date attribute. *)
Theorem ticket_run_without_date
    (llm : Prompt -> Result string) (now : string) (state : AdapticState) (first : string) :
  isEventCreation (JS.toLowerCase (input state)) = true ->
  eventDate state = None ->
  occurs "|" first = false ->
  llm (extractionPrompt state) = Ok ("EXTRACTION_COMPLETE:" +:+ first) ->
  let r := graph_stream llm now state in
  thrown r = None
  /\ (chunks r).*1 = ["introduction_node"; "event_extraction_node"; "nft_creation_node"]
  /\ eventName (final r) = Some (JS.trim first)
  /\ eventDate (final r) = None
  /\ exists t,
       nftTicketObject (final r) = Some t
       /\ date (eventDetails t) = "Unknown Date"
       /\ value <$> attributes (metadata t) !! 1 = Some "TBD".
Proof.
  intros Hkw Hdate Hf Hllm r. subst r.
  unfold graph_stream, START. change recursionLimit with 100.
  rewrite (run_from_goto llm now 99 IntroductionNode EventExtractionNode state _ _
             (introduction_node_keyword llm state Hkw) eq_refl).
  cbv zeta. set (s1 := apply_update state _).
  assert (Hllm1 : llm (extractionPrompt s1) = Ok ("EXTRACTION_COMPLETE:" +:+ first)).
  { unfold s1. by rewrite extractionPrompt_after_keyword. }
  pose proof (event_extraction_node_complete llm s1 _ Hllm1 (startsWith_append _ _)) as He.
  cbv zeta in He. rewrite replace_prefix in He.
  rewrite (split_no_separator first "|" Hf) in He.
  cbn [fmap list_fmap lookup list_lookup] in He.
  rewrite (run_from_goto llm now 98 EventExtractionNode NftCreationNode s1 _ _ He eq_refl).
  cbv zeta. set (s2 := apply_update s1 _).
  rewrite (run_from_end llm now 97 NftCreationNode s2 [] _ eq_refl eq_refl).
  cbn [thrown chunks final fmap list_fmap fst].
  assert (Hd2 : eventDate s2 = None) by (unfold s2, s1; cbn; by rewrite Hdate).
  split; [reflexivity |]. split; [reflexivity |]. split; [reflexivity |].
  split; [cbn [eventDate apply_update]; by rewrite Hd2 |].
  eexists. split; [reflexivity |].
  cbn [eventDetails date metadata attributes]. rewrite Hd2. split; reflexivity.
Qed.

Lemma ticket_run_without_date_witness :
  let llm := fun _ : Prompt => Ok "EXTRACTION_COMPLETE: Gala" in
  let r := graph_stream llm "2026-01-01T00:00:00.000Z" (initialState "my event" []) in
  eventName (final r) = Some "Gala" /\ eventDate (final r) = None.
Proof.
  intros llm r.
  destruct (ticket_run_without_date llm "2026-01-01T00:00:00.000Z"
              (initialState "my event" []) " Gala" eq_refl eq_refl eq_refl eq_refl)
    as (_ & _ & Hn & Hd & _).
  split; [exact Hn | exact Hd].
Defined.
